(** * DWB local planner: kinematic model, velocity sampling, trajectory
      generation, critic scoring, path windowing and goal checking.

    Shallow embedding of the decision core of [nav2_dwb_controller].
    Where the code only adds, multiplies, divides and compares, its
    [double] is modelled by the rationals ([Q]), so that every definition
    runs; what is proved on that model is stated on the comparisons the
    code makes.  Where a property depends on the arithmetic of [double]
    itself, the code is embedded on IEEE binary64 (module [Binary64], on the
    kernel's primitive floats).  The goal checker, which needs [M_PI], is
    over the reals ([R]). *)

From Stdlib Require Import String.
From Stdlib Require Import List Bool Arith ZArith Lia.
From Stdlib Require Import QArith Qabs Qminmax Qround.
From Stdlib Require Import Reals Qreals Psatz Machin.
From Stdlib Require PrimFloat FloatOps FloatAxioms SpecFloat.
Import ListNotations.

Open Scope Q_scope.

(* ================================================================== *)
(** * Part I -- the program *)
(* ================================================================== *)

(** ** Comparisons on [double], as boolean tests *)

Definition Qleb (a b : Q) : bool := Qle_bool a b.
Definition Qltb (a b : Q) : bool := negb (Qle_bool b a).
Definition Qgeb (a b : Q) : bool := Qle_bool b a.
Definition Qgtb (a b : Q) : bool := negb (Qle_bool a b).
Definition Qeqb (a b : Q) : bool := Qeq_bool a b.

(** [std::fabs] *)
Definition fabs (a : Q) : Q := Qabs a.

(** ** Messages *)

(** [nav_2d_msgs::msg::Twist2D] *)
Record Twist2D := mkTwist { tw_x : Q; tw_y : Q; tw_theta : Q }.

(** [geometry_msgs::msg::Pose2D] *)
Record Pose2D := mkPose { p_x : Q; p_y : Q; p_theta : Q }.

(** ** dwb_plugins/kinematic_parameters.{hpp,cpp} *)

Module KinematicParameters.

(** The fourteen parameters read by [initialize] from the node. *)
Record Params := {
  min_vel_x : Q; min_vel_y : Q; max_vel_x : Q; max_vel_y : Q;
  max_vel_theta : Q;
  min_speed_xy : Q; max_speed_xy : Q; min_speed_theta : Q;
  acc_lim_x : Q; acc_lim_y : Q; acc_lim_theta : Q;
  decel_lim_x : Q; decel_lim_y : Q; decel_lim_theta : Q
}.

(** The object: the parameters and the two cached squares. *)
Record t := {
  min_vel_x_ : Q; min_vel_y_ : Q; max_vel_x_ : Q; max_vel_y_ : Q;
  max_vel_theta_ : Q;
  min_speed_xy_ : Q; max_speed_xy_ : Q; min_speed_theta_ : Q;
  acc_lim_x_ : Q; acc_lim_y_ : Q; acc_lim_theta_ : Q;
  decel_lim_x_ : Q; decel_lim_y_ : Q; decel_lim_theta_ : Q;
  min_speed_xy_sq_ : Q; max_speed_xy_sq_ : Q
}.

(** [KinematicParameters::initialize]: copies the parameters and caches
    [min_speed_xy_ * min_speed_xy_] and [max_speed_xy_ * max_speed_xy_]. *)
Definition initialize (nh : Params) : t := {|
  min_vel_x_ := min_vel_x nh; min_vel_y_ := min_vel_y nh;
  max_vel_x_ := max_vel_x nh; max_vel_y_ := max_vel_y nh;
  max_vel_theta_ := max_vel_theta nh;
  min_speed_xy_ := min_speed_xy nh; max_speed_xy_ := max_speed_xy nh;
  min_speed_theta_ := min_speed_theta nh;
  acc_lim_x_ := acc_lim_x nh; acc_lim_y_ := acc_lim_y nh;
  acc_lim_theta_ := acc_lim_theta nh;
  decel_lim_x_ := decel_lim_x nh; decel_lim_y_ := decel_lim_y nh;
  decel_lim_theta_ := decel_lim_theta nh;
  min_speed_xy_sq_ := min_speed_xy nh * min_speed_xy nh;
  max_speed_xy_sq_ := max_speed_xy nh * max_speed_xy nh
|}.

Definition getMinX (k : t) := min_vel_x_ k.
Definition getMaxX (k : t) := max_vel_x_ k.
Definition getAccX (k : t) := acc_lim_x_ k.
Definition getDecelX (k : t) := decel_lim_x_ k.
Definition getMinY (k : t) := min_vel_y_ k.
Definition getMaxY (k : t) := max_vel_y_ k.
Definition getAccY (k : t) := acc_lim_y_ k.
Definition getDecelY (k : t) := decel_lim_y_ k.
Definition getMinTheta (k : t) := - max_vel_theta_ k.
Definition getMaxTheta (k : t) := max_vel_theta_ k.
Definition getAccTheta (k : t) := acc_lim_theta_ k.
Definition getDecelTheta (k : t) := decel_lim_theta_ k.

(** [KinematicParameters::isValidSpeed]: three early returns, then [true].
    Here on exact numbers, for the sampling grids;
    [Binary64.KinematicParameters.isValidSpeed] is the same code on
    [double]. *)
Definition isValidSpeed (k : t) (x y theta : Q) : bool :=
  let vmag_sq := x * x + y * y in
  if Qgeb (max_speed_xy_ k) 0 && Qgtb vmag_sq (max_speed_xy_sq_ k)
  then false
  else if Qgeb (min_speed_xy_ k) 0 && Qltb vmag_sq (min_speed_xy_sq_ k) &&
          Qgeb (min_speed_theta_ k) 0 && Qltb (fabs theta) (min_speed_theta_ k)
  then false
  else if Qeqb vmag_sq 0 && Qeqb theta 0
  then false
  else true.

(** The three rejections of [isValidSpeed], each as a test of its own. *)
Definition too_fast (k : t) (x y : Q) : bool :=
  Qgeb (max_speed_xy_ k) 0 && Qgtb (x * x + y * y) (max_speed_xy_sq_ k).
Definition too_slow (k : t) (x y theta : Q) : bool :=
  Qgeb (min_speed_xy_ k) 0 && Qltb (x * x + y * y) (min_speed_xy_sq_ k) &&
  Qgeb (min_speed_theta_ k) 0 && Qltb (fabs theta) (min_speed_theta_ k).
Definition null_command (x y theta : Q) : bool :=
  Qeqb (x * x + y * y) 0 && Qeqb theta 0.

End KinematicParameters.

(** [getDefaultKinematicParameters] of test/twist_gen.cpp. *)
Definition getDefaultKinematicParameters : KinematicParameters.Params := {|
  KinematicParameters.min_vel_x := 0;
  KinematicParameters.min_vel_y := -(1#10);
  KinematicParameters.max_vel_x := 55#100;
  KinematicParameters.max_vel_y := 1#10;
  KinematicParameters.max_vel_theta := 1;
  KinematicParameters.min_speed_xy := 1#10;
  KinematicParameters.max_speed_xy := 55#100;
  KinematicParameters.min_speed_theta := 4#10;
  KinematicParameters.acc_lim_x := 25#10;
  KinematicParameters.acc_lim_y := 25#10;
  KinematicParameters.acc_lim_theta := 32#10;
  KinematicParameters.decel_lim_x := -(25#10);
  KinematicParameters.decel_lim_y := -(25#10);
  KinematicParameters.decel_lim_theta := -(32#10)
|}.

(** [nh->set_parameters] for the three magnitude thresholds, as the tests
    of test/twist_gen.cpp use it before [initialize]. *)
Definition set_speed_thresholds (nh : KinematicParameters.Params)
    (max_xy min_xy min_theta : Q) : KinematicParameters.Params := {|
  KinematicParameters.min_vel_x := KinematicParameters.min_vel_x nh;
  KinematicParameters.min_vel_y := KinematicParameters.min_vel_y nh;
  KinematicParameters.max_vel_x := KinematicParameters.max_vel_x nh;
  KinematicParameters.max_vel_y := KinematicParameters.max_vel_y nh;
  KinematicParameters.max_vel_theta := KinematicParameters.max_vel_theta nh;
  KinematicParameters.min_speed_xy := min_xy;
  KinematicParameters.max_speed_xy := max_xy;
  KinematicParameters.min_speed_theta := min_theta;
  KinematicParameters.acc_lim_x := KinematicParameters.acc_lim_x nh;
  KinematicParameters.acc_lim_y := KinematicParameters.acc_lim_y nh;
  KinematicParameters.acc_lim_theta := KinematicParameters.acc_lim_theta nh;
  KinematicParameters.decel_lim_x := KinematicParameters.decel_lim_x nh;
  KinematicParameters.decel_lim_y := KinematicParameters.decel_lim_y nh;
  KinematicParameters.decel_lim_theta := KinematicParameters.decel_lim_theta nh
|}.

(** [std::hypot], over the reals: the magnitude the documentation of
    [isValidSpeed] speaks of, where the code compares squares. *)
Definition hypot (x y : Q) : R := sqrt (Q2R x * Q2R x + Q2R y * Q2R y).

(** ** dwb_plugins/kinematic_parameters.cpp on binary64 *)

(** The products, the sum and the comparisons of [isValidSpeed] are those
    of [double]: they round, overflow and underflow.  This is the same code
    on IEEE binary64, for what depends on that. *)
Module Binary64.
Import PrimFloat FloatOps SpecFloat.

(** [a >= b] and [a > b] on [double]: false when either side is a NaN. *)
Definition geb (a b : float) : bool := leb b a.
Definition gtb (a b : float) : bool := ltb b a.

(** [std::fabs] *)
Definition fabs (a : float) : float := abs a.

(** The number a finite [double] stands for; infinities and NaN are given
    [0]. *)
Definition value (f : float) : Q :=
  match Prim2SF f with
  | S754_finite s m e => (if s then -1 else 1) * inject_Z (Zpos m) * 2 ^ e
  | _ => 0
  end.

Module KinematicParameters.

(** The fourteen parameters read by [initialize] from the node. *)
Record Params := {
  min_vel_x : float; min_vel_y : float; max_vel_x : float; max_vel_y : float;
  max_vel_theta : float;
  min_speed_xy : float; max_speed_xy : float; min_speed_theta : float;
  acc_lim_x : float; acc_lim_y : float; acc_lim_theta : float;
  decel_lim_x : float; decel_lim_y : float; decel_lim_theta : float
}.

(** The object: the parameters and the two cached squares. *)
Record t := {
  min_vel_x_ : float; min_vel_y_ : float; max_vel_x_ : float;
  max_vel_y_ : float; max_vel_theta_ : float;
  min_speed_xy_ : float; max_speed_xy_ : float; min_speed_theta_ : float;
  acc_lim_x_ : float; acc_lim_y_ : float; acc_lim_theta_ : float;
  decel_lim_x_ : float; decel_lim_y_ : float; decel_lim_theta_ : float;
  min_speed_xy_sq_ : float; max_speed_xy_sq_ : float
}.

(** [KinematicParameters::initialize] *)
Definition initialize (nh : Params) : t := {|
  min_vel_x_ := min_vel_x nh; min_vel_y_ := min_vel_y nh;
  max_vel_x_ := max_vel_x nh; max_vel_y_ := max_vel_y nh;
  max_vel_theta_ := max_vel_theta nh;
  min_speed_xy_ := min_speed_xy nh; max_speed_xy_ := max_speed_xy nh;
  min_speed_theta_ := min_speed_theta nh;
  acc_lim_x_ := acc_lim_x nh; acc_lim_y_ := acc_lim_y nh;
  acc_lim_theta_ := acc_lim_theta nh;
  decel_lim_x_ := decel_lim_x nh; decel_lim_y_ := decel_lim_y nh;
  decel_lim_theta_ := decel_lim_theta nh;
  min_speed_xy_sq_ := (min_speed_xy nh * min_speed_xy nh)%float;
  max_speed_xy_sq_ := (max_speed_xy nh * max_speed_xy nh)%float
|}.

(** [KinematicParameters::isValidSpeed] *)
Definition isValidSpeed (k : t) (x y theta : float) : bool :=
  let vmag_sq := (x * x + y * y)%float in
  if geb (max_speed_xy_ k) 0 && gtb vmag_sq (max_speed_xy_sq_ k)
  then false
  else if geb (min_speed_xy_ k) 0 && ltb vmag_sq (min_speed_xy_sq_ k) &&
          geb (min_speed_theta_ k) 0 && ltb (fabs theta) (min_speed_theta_ k)
  then false
  else if eqb vmag_sq 0 && eqb theta 0
  then false
  else true.

End KinematicParameters.

(** [getDefaultKinematicParameters] of test/twist_gen.cpp, each constant
    the [double] nearest to the decimal of the source: 0.55, 0.1, 0.4, 2.5
    and 3.2. *)
Definition getDefaultKinematicParameters : KinematicParameters.Params := {|
  KinematicParameters.min_vel_x := 0;
  KinematicParameters.min_vel_y := (-0x1.999999999999ap-4)%float;
  KinematicParameters.max_vel_x := 0x1.199999999999ap-1%float;
  KinematicParameters.max_vel_y := 0x1.999999999999ap-4%float;
  KinematicParameters.max_vel_theta := 1;
  KinematicParameters.min_speed_xy := 0x1.999999999999ap-4%float;
  KinematicParameters.max_speed_xy := 0x1.199999999999ap-1%float;
  KinematicParameters.min_speed_theta := 0x1.999999999999ap-2%float;
  KinematicParameters.acc_lim_x := 0x1.4p+1%float;
  KinematicParameters.acc_lim_y := 0x1.4p+1%float;
  KinematicParameters.acc_lim_theta := 0x1.999999999999ap+1%float;
  KinematicParameters.decel_lim_x := (-0x1.4p+1)%float;
  KinematicParameters.decel_lim_y := (-0x1.4p+1)%float;
  KinematicParameters.decel_lim_theta := (-0x1.999999999999ap+1)%float
|}.

(** [nh->set_parameters] for the three magnitude thresholds. *)
Definition set_speed_thresholds (nh : KinematicParameters.Params)
    (max_xy min_xy min_theta : float) : KinematicParameters.Params := {|
  KinematicParameters.min_vel_x := KinematicParameters.min_vel_x nh;
  KinematicParameters.min_vel_y := KinematicParameters.min_vel_y nh;
  KinematicParameters.max_vel_x := KinematicParameters.max_vel_x nh;
  KinematicParameters.max_vel_y := KinematicParameters.max_vel_y nh;
  KinematicParameters.max_vel_theta := KinematicParameters.max_vel_theta nh;
  KinematicParameters.min_speed_xy := min_xy;
  KinematicParameters.max_speed_xy := max_xy;
  KinematicParameters.min_speed_theta := min_theta;
  KinematicParameters.acc_lim_x := KinematicParameters.acc_lim_x nh;
  KinematicParameters.acc_lim_y := KinematicParameters.acc_lim_y nh;
  KinematicParameters.acc_lim_theta := KinematicParameters.acc_lim_theta nh;
  KinematicParameters.decel_lim_x := KinematicParameters.decel_lim_x nh;
  KinematicParameters.decel_lim_y := KinematicParameters.decel_lim_y nh;
  KinematicParameters.decel_lim_theta := KinematicParameters.decel_lim_theta nh
|}.

(** The parameters as [initialize] declares them when the node sets none:
    every [declare_parameter] has the default [0.0]. *)
Definition declared_defaults : KinematicParameters.Params := {|
  KinematicParameters.min_vel_x := 0;
  KinematicParameters.min_vel_y := 0;
  KinematicParameters.max_vel_x := 0;
  KinematicParameters.max_vel_y := 0;
  KinematicParameters.max_vel_theta := 0;
  KinematicParameters.min_speed_xy := 0;
  KinematicParameters.max_speed_xy := 0;
  KinematicParameters.min_speed_theta := 0;
  KinematicParameters.acc_lim_x := 0;
  KinematicParameters.acc_lim_y := 0;
  KinematicParameters.acc_lim_theta := 0;
  KinematicParameters.decel_lim_x := 0;
  KinematicParameters.decel_lim_y := 0;
  KinematicParameters.decel_lim_theta := 0
|}.

(** What the documentation says of [isValidSpeed], read on the numbers the
    arguments stand for: the twist is invalid when [hypot(vx, vy)] exceeds
    a configured maximum, or falls short of a configured minimum while the
    rotation falls short of its configured minimum, or when the magnitude
    and the rotation are both zero.  It is what the code is compared with,
    not a part of it. *)
Definition documented_invalid (nh : KinematicParameters.Params)
    (vx vy vtheta : float) : Prop :=
  let max_speed_xy := value (KinematicParameters.max_speed_xy nh) in
  let min_speed_xy := value (KinematicParameters.min_speed_xy nh) in
  let min_speed_theta := value (KinematicParameters.min_speed_theta nh) in
  (0 <= max_speed_xy /\
   (Q2R max_speed_xy < hypot (value vx) (value vy))%R)
  \/ (0 <= min_speed_xy /\
      (hypot (value vx) (value vy) < Q2R min_speed_xy)%R /\
      0 <= min_speed_theta /\ Qabs (value vtheta) < min_speed_theta)
  \/ (hypot (value vx) (value vy) = 0%R /\ value vtheta == 0).

End Binary64.

(** ** Velocity sample space *)

Module VelocityIterator.

(** The two sampling policies: [StandardTrajectoryGenerator] samples the
    absolute limits, [LimitedAccelGenerator] the window reachable within
    [sim_period]. *)
Inductive Policy :=
| StaticLimits
| DynamicWindow (sim_period : Q).

(** [vx_samples], [vy_samples], [vtheta_samples]. *)
Record Samples := { vx_samples : nat; vy_samples : nat; vtheta_samples : nat }.

(** Modelled from the spec: the one-axis velocity iterator and the
    x/y/theta iterator ([dwb_plugins/one_d_velocity_iterator.hpp],
    [xy_theta_iterator.cpp]) are not among the sources; only their caller's
    header and the tests of test/twist_gen.cpp are.  Section 4.2 of the
    specification fixes the range of an axis: the [min, max] limit for the
    static policy, and its intersection with
    [current + decel * dt, current + accel * dt] for the dynamic window
    (deceleration limits are signed, negative). *)
Definition axis_range (p : Policy) (current lo hi acc decel : Q) : Q * Q :=
  match p with
  | StaticLimits => (lo, hi)
  | DynamicWindow dt =>
      (Qmax lo (current + decel * dt), Qmin hi (current + acc * dt))
  end.

(** Modelled from the spec: an evenly spaced grid, [n] samples starting at
    [v] and [inc] apart. *)
Fixpoint grid_from (v inc : Q) (n : nat) : list Q :=
  match n with
  | O => []
  | S n' => v :: grid_from (v + inc) inc n'
  end.

(** Modelled from the spec: the grid of one axis, "evenly spaced across
    the admissible range using the configured sample count": [n] samples
    from [lo] to [hi], [n - 1] equal parts. *)
Definition axis_grid (lo hi : Q) (n : nat) : list Q :=
  grid_from lo ((hi - lo) / (inject_Z (Z.of_nat n) - 1)) n.

(** Modelled from the spec: the injected zero.  Section 4.2 speaks of a
    zero slice added to the grid; the tests under test/twist_gen.cpp pin
    when: [no_limits] counts it (twenty theta samples step over zero),
    [no_limits_samples] does not (five theta samples hit zero), and
    [nonzero] counts one on the y axis too.  So zero is inserted on an axis
    exactly where two neighbouring samples have it strictly between them. *)
Fixpoint with_zero (l : list Q) : list Q :=
  match l with
  | [] => []
  | a :: tl =>
      match tl with
      | [] => [a]
      | b :: _ =>
          if Qltb a 0 && Qltb 0 b then a :: 0 :: with_zero tl
          else a :: with_zero tl
      end
  end.

Definition axis_samples (r : Q * Q) (n : nat) : list Q :=
  with_zero (axis_grid (fst r) (snd r) n).

(** The full grid, x outermost and theta innermost. *)
Definition grid3 (xs ys ts : list Q) : list Twist2D :=
  flat_map (fun x => flat_map (fun y => map (fun t => mkTwist x y t) ts) ys) xs.

Definition isValidVelocity (k : KinematicParameters.t) (v : Twist2D) : bool :=
  KinematicParameters.isValidSpeed k (tw_x v) (tw_y v) (tw_theta v).

(** The samples of the three axes for one iteration. *)
Definition samples_x (k : KinematicParameters.t) (s : Samples) (p : Policy)
    (current_velocity : Twist2D) : list Q :=
  axis_samples
    (axis_range p (tw_x current_velocity)
       (KinematicParameters.getMinX k) (KinematicParameters.getMaxX k)
       (KinematicParameters.getAccX k) (KinematicParameters.getDecelX k))
    (vx_samples s).

Definition samples_y (k : KinematicParameters.t) (s : Samples) (p : Policy)
    (current_velocity : Twist2D) : list Q :=
  axis_samples
    (axis_range p (tw_y current_velocity)
       (KinematicParameters.getMinY k) (KinematicParameters.getMaxY k)
       (KinematicParameters.getAccY k) (KinematicParameters.getDecelY k))
    (vy_samples s).

Definition samples_theta (k : KinematicParameters.t) (s : Samples) (p : Policy)
    (current_velocity : Twist2D) : list Q :=
  axis_samples
    (axis_range p (tw_theta current_velocity)
       (KinematicParameters.getMinTheta k) (KinematicParameters.getMaxTheta k)
       (KinematicParameters.getAccTheta k) (KinematicParameters.getDecelTheta k))
    (vtheta_samples s).

(** Every combination of the samples, before any is skipped. *)
Definition sample_grid (k : KinematicParameters.t) (s : Samples) (p : Policy)
    (current_velocity : Twist2D) : list Twist2D :=
  grid3 (samples_x k s p current_velocity) (samples_y k s p current_velocity)
        (samples_theta k s p current_velocity).

(** Modelled from the spec: the iterator.  Its state is the sequence of
    twists still to be yielded; [startNewIteration] builds the sample grid
    of the three axes and skips every twist [isValidSpeed] rejects. *)
Definition startNewIteration (k : KinematicParameters.t) (s : Samples)
    (p : Policy) (current_velocity : Twist2D) : list Twist2D :=
  filter (isValidVelocity k) (sample_grid k s p current_velocity).

Definition hasMoreTwists (it : list Twist2D) : bool :=
  match it with [] => false | _ :: _ => true end.

(** [nextTwist]: the twist yielded and the iterator after it; only called
    while [hasMoreTwists]. *)
Definition nextTwist (it : list Twist2D) : option (Twist2D * list Twist2D) :=
  match it with [] => None | v :: it' => Some (v, it') end.

(** [TrajectoryGenerator::getTwists]: start an iteration and collect
    [nextTwist] while [hasMoreTwists].  [fuel] bounds the loop. *)
Fixpoint collect (fuel : nat) (it : list Twist2D) : list Twist2D :=
  match fuel with
  | O => []
  | S fuel' =>
      if hasMoreTwists it then
        match nextTwist it with
        | Some (v, it') => v :: collect fuel' it'
        | None => []
        end
      else []
  end.

Definition getTwists (k : KinematicParameters.t) (s : Samples) (p : Policy)
    (current_velocity : Twist2D) : list Twist2D :=
  let it := startNewIteration k s p current_velocity in
  collect (S (length it)) it.

(** The null command as a twist. *)
Definition null_twist (v : Twist2D) : bool :=
  KinematicParameters.null_command (tw_x v) (tw_y v) (tw_theta v).

(** Counting the samples of an axis: the exact zeros among them, and how
    many samples an axis yields once zero is injected where the grid steps
    over it. *)
Definition is_zero (q : Q) : bool := Qeqb q 0.

Definition count_zero (l : list Q) : nat := length (filter is_zero l).

Definition axis_count (lo hi : Q) (n : nat) : nat :=
  (n + if existsb is_zero (axis_grid lo hi n) then 0 else 1)%nat.

(** The default sample counts; the test [no_limits] counts with them
    ([20u * 20u * 5u]). *)
Definition default_samples : Samples :=
  {| vx_samples := 20; vy_samples := 5; vtheta_samples := 20 |}.

End VelocityIterator.

(** ** Trajectory generation *)

(** [dwb_msgs::msg::Trajectory2D]: the commanded twist, the horizon in
    seconds and the simulated poses. *)
Record Trajectory2D := mkTraj {
  velocity : Twist2D;
  duration : Q;
  poses : list Pose2D
}.

(** [cos] and [sin] of <cmath>, which the pose integration calls; any pair
    of functions on [double] will do for what is proved here. *)
Class Libm := { libm_cos : Q -> Q; libm_sin : Q -> Q }.

(** A stand-in that is exact at heading zero, for the straight-line tests. *)
Definition libm_heading_zero : Libm :=
  {| libm_cos := fun _ => 1; libm_sin := fun _ => 0 |}.

Module StandardTrajectoryGenerator.

(** The generator object of dwb_plugins/standard_traj_generator.hpp: the
    kinematics, the velocity iterator (here with the counts and the policy
    it was built with) and the simulation parameters. *)
Record t := {
  kinematics_ : KinematicParameters.t;
  velocity_iterator_ : list Twist2D;
  samples_ : VelocityIterator.Samples;
  policy_ : VelocityIterator.Policy;
  sim_time_ : Q;
  discretize_by_time_ : bool;
  time_granularity_ : Q;
  linear_granularity_ : Q;
  angular_granularity_ : Q
}.

Definition set_iterator (g : t) (it : list Twist2D) : t := {|
  kinematics_ := kinematics_ g;
  velocity_iterator_ := it;
  samples_ := samples_ g;
  policy_ := policy_ g;
  sim_time_ := sim_time_ g;
  discretize_by_time_ := discretize_by_time_ g;
  time_granularity_ := time_granularity_ g;
  linear_granularity_ := linear_granularity_ g;
  angular_granularity_ := angular_granularity_ g
|}.

Definition startNewIteration (g : t) (current_velocity : Twist2D) : t :=
  set_iterator g
    (VelocityIterator.startNewIteration (kinematics_ g) (samples_ g)
       (policy_ g) current_velocity).

Definition hasMoreTwists (g : t) : bool :=
  VelocityIterator.hasMoreTwists (velocity_iterator_ g).

Definition nextTwist (g : t) : option (Twist2D * t) :=
  match VelocityIterator.nextTwist (velocity_iterator_ g) with
  | Some (v, it) => Some (v, set_iterator g it)
  | None => None
  end.

(** Modelled from the spec: [projectVelocity], the helper behind
    [computeNewVelocity], is not among the sources.  Section 4.3: the
    target, clipped by how far the limits let the velocity move from [v0]
    within [dt]; the acceleration limit bounds a rise, the (negative)
    deceleration limit a fall. *)
Definition projectVelocity (v0 accel decel dt target : Q) : Q :=
  if Qltb v0 target then Qmin target (v0 + accel * dt)
  else Qmax target (v0 + decel * dt).

(** Modelled from the spec: the body of [computeNewVelocity] (declared in
    standard_traj_generator.hpp, defined in a file that is not among the
    sources): each axis on its own, with its own limits.  The derived
    [LimitedAccelGenerator], whose iterator samples only what is reachable
    within [sim_period], takes the command as it is: the test [dwa] of
    test/twist_gen.cpp expects the poses 0.3, 0.6, 0.9, 1.2 where the test
    [accel] expects 0.1, 0.3, 0.6, 0.9. *)
Definition computeNewVelocity (g : t) (cmd_vel start_vel : Twist2D) (dt : Q)
    : Twist2D :=
  match policy_ g with
  | VelocityIterator.DynamicWindow _ => cmd_vel
  | VelocityIterator.StaticLimits =>
      let k := kinematics_ g in
      {| tw_x := projectVelocity (tw_x start_vel)
                   (KinematicParameters.getAccX k)
                   (KinematicParameters.getDecelX k) dt (tw_x cmd_vel);
         tw_y := projectVelocity (tw_y start_vel)
                   (KinematicParameters.getAccY k)
                   (KinematicParameters.getDecelY k) dt (tw_y cmd_vel);
         tw_theta := projectVelocity (tw_theta start_vel)
                   (KinematicParameters.getAccTheta k)
                   (KinematicParameters.getDecelTheta k) dt
                   (tw_theta cmd_vel) |}
  end.

(** Modelled from the spec: the number of steps when discretizing by
    distance (the body of [getTimeSteps] is not among the sources): the
    least count for which neither [hypot(vx,vy) * sim_time / n] exceeds the
    linear granularity nor [|vtheta| * sim_time / n] the angular one.
    [ceil (sqrt q)] is [Z.sqrt_up (ceil q)]. *)
Definition distance_steps (g : t) (cmd_vel : Twist2D) : Z :=
  let vmag_sq := tw_x cmd_vel * tw_x cmd_vel + tw_y cmd_vel * tw_y cmd_vel in
  let lin_sq := vmag_sq * (sim_time_ g * sim_time_ g)
                / (linear_granularity_ g * linear_granularity_ g) in
  let ang := fabs (tw_theta cmd_vel) * sim_time_ g / angular_granularity_ g in
  Z.max (Z.sqrt_up (Qceiling lin_sq)) (Qceiling ang).

(** Modelled from the spec: [getTimeSteps].  Either the number of steps of
    the time granularity that span the simulation time, or
    [distance_steps]; at least one step; every step the same share of the
    simulation time, so that the total stays fixed. *)
Definition getTimeSteps (g : t) (cmd_vel : Twist2D) : list Q :=
  let n := if discretize_by_time_ g
           then Qceiling (sim_time_ g / time_granularity_ g)
           else distance_steps g cmd_vel in
  let n := Z.to_nat (Z.max 1 n) in
  repeat (sim_time_ g / inject_Z (Z.of_nat n)) n.

Section Integration.
Context {libm : Libm}.

(** Modelled from the spec: [computeNewPosition], holonomic Euler step:
    the body-frame velocity rotated by the heading before the step. *)
Definition computeNewPosition (start_pose : Pose2D) (vel : Twist2D) (dt : Q)
    : Pose2D :=
  let c := libm_cos (p_theta start_pose) in
  let s := libm_sin (p_theta start_pose) in
  {| p_x := p_x start_pose + (tw_x vel * c - tw_y vel * s) * dt;
     p_y := p_y start_pose + (tw_x vel * s + tw_y vel * c) * dt;
     p_theta := p_theta start_pose + tw_theta vel * dt |}.

(** The simulation loop: one pose per time step. *)
Fixpoint simulate (g : t) (cmd_vel : Twist2D) (pose : Pose2D)
    (vel : Twist2D) (steps : list Q) : list Pose2D :=
  match steps with
  | [] => []
  | dt :: steps' =>
      let vel' := computeNewVelocity g cmd_vel vel dt in
      let pose' := computeNewPosition pose vel' dt in
      pose' :: simulate g cmd_vel pose' vel' steps'
  end.

(** Modelled from the spec: [generateTrajectory] (declared in
    standard_traj_generator.hpp, body not among the sources; the tests
    of test/twist_gen.cpp fix that [poses[0]] is the start pose, that
    [velocity] is the commanded twist and that [duration] is the
    simulation time).  A method of the generator: it returns the
    trajectory and the generator after the call. *)
Definition generateTrajectory (g : t) (start_pose : Pose2D)
    (start_vel cmd_vel : Twist2D) : Trajectory2D * t :=
  let steps := getTimeSteps g cmd_vel in
  ({| velocity := cmd_vel;
      duration := sim_time_ g;
      poses := start_pose :: simulate g cmd_vel start_pose start_vel steps |},
   g).

End Integration.

(** The velocities achieved step by step, as [simulate] computes them. *)
Fixpoint achieved (g : t) (cmd_vel vel : Twist2D) (steps : list Q)
    : list Twist2D :=
  match steps with
  | [] => []
  | dt :: steps' =>
      let vel' := computeNewVelocity g cmd_vel vel dt in
      vel' :: achieved g cmd_vel vel' steps'
  end.

(** The target clipped into the interval the limits allow around the
    previous velocity: the wording of the specification. *)
Definition clip_to_limits (prev accel decel dt target : Q) : Q :=
  Qmax (prev + decel * dt) (Qmin target (prev + accel * dt)).

(** [initialize]: a generator over the given kinematics.  The defaults of
    the simulation parameters are set in a file that is not among the
    sources; these values are the ones the tests of test/twist_gen.cpp
    agree with (1.7 s horizon, two steps for 0.51 m, eight for 0.1887 rad). *)
Definition initialize (nh : KinematicParameters.Params) : t := {|
  kinematics_ := KinematicParameters.initialize nh;
  velocity_iterator_ := [];
  samples_ := VelocityIterator.default_samples;
  policy_ := VelocityIterator.StaticLimits;
  sim_time_ := 17 # 10;
  discretize_by_time_ := false;
  time_granularity_ := 5 # 10;
  linear_granularity_ := 5 # 10;
  angular_granularity_ := 25 # 1000
|}.

(** [sim_time], [discretize_by_time] and [sim_granularity] set on the node
    before [initialize], as the test [accel] does. *)
Definition initialize_by_time (nh : KinematicParameters.Params)
    (sim_time sim_granularity : Q) : t := {|
  kinematics_ := KinematicParameters.initialize nh;
  velocity_iterator_ := [];
  samples_ := VelocityIterator.default_samples;
  policy_ := VelocityIterator.StaticLimits;
  sim_time_ := sim_time;
  discretize_by_time_ := true;
  time_granularity_ := sim_granularity;
  linear_granularity_ := 5 # 10;
  angular_granularity_ := 25 # 1000
|}.

(** A velocity [v] reached from [prev] in a step of [dt] towards the command:
  every axis is the commanded component clipped into what the limits of
  that axis allow around the previous component. *)
Definition clipped (k : KinematicParameters.t) (cmd_vel prev : Twist2D) (dt : Q)
  (v : Twist2D) : Prop :=
tw_x v == clip_to_limits (tw_x prev) (KinematicParameters.getAccX k)
            (KinematicParameters.getDecelX k) dt (tw_x cmd_vel) /\
tw_y v == clip_to_limits (tw_y prev) (KinematicParameters.getAccY k)
            (KinematicParameters.getDecelY k) dt (tw_y cmd_vel) /\
tw_theta v == clip_to_limits (tw_theta prev) (KinematicParameters.getAccTheta k)
            (KinematicParameters.getDecelTheta k) dt (tw_theta cmd_vel).

(** The same at every step of a run, each step starting from the velocity
  the step before it reached. *)
Fixpoint each_step_clipped (k : KinematicParameters.t) (cmd_vel prev : Twist2D)
  (steps : list Q) (vs : list Twist2D) : Prop :=
match steps, vs with
| [], [] => True
| dt :: steps', v :: vs' =>
    clipped k cmd_vel prev dt v /\ each_step_clipped k cmd_vel v steps' vs'
| _, _ => False
end.

(** The limits have the signs the data model asks for. *)
Definition limits_signed (k : KinematicParameters.t) : Prop :=
0 <= KinematicParameters.getAccX k /\ KinematicParameters.getDecelX k <= 0 /\
0 <= KinematicParameters.getAccY k /\ KinematicParameters.getDecelY k <= 0 /\
0 <= KinematicParameters.getAccTheta k /\
KinematicParameters.getDecelTheta k <= 0.

(** The poses that follow from a start pose when the robot moves at the
  given velocities for the given times. *)
Fixpoint integrate {libm : Libm} (pose : Pose2D) (vs : list Twist2D)
  (steps : list Q) : list Pose2D :=
match vs, steps with
| v :: vs', dt :: steps' =>
    let pose' := computeNewPosition pose v dt in
    pose' :: integrate pose' vs' steps'
| _, _ => []
end.

(** The parameters of the test [accel]: [acc_lim_x = 0.1], [min_speed_xy = -1]. *)
Definition accel_params : KinematicParameters.Params := {|
KinematicParameters.min_vel_x := 0;
KinematicParameters.min_vel_y := -(1#10);
KinematicParameters.max_vel_x := 55#100;
KinematicParameters.max_vel_y := 1#10;
KinematicParameters.max_vel_theta := 1;
KinematicParameters.min_speed_xy := -1;
KinematicParameters.max_speed_xy := 55#100;
KinematicParameters.min_speed_theta := 4#10;
KinematicParameters.acc_lim_x := 1#10;
KinematicParameters.acc_lim_y := 25#10;
KinematicParameters.acc_lim_theta := 32#10;
KinematicParameters.decel_lim_x := -(25#10);
KinematicParameters.decel_lim_y := -(25#10);
KinematicParameters.decel_lim_theta := -(32#10)
|}.

(** Its generator: [sim_time = 5], [discretize_by_time], [sim_granularity = 1]. *)
Definition accel_generator : t := initialize_by_time accel_params 5 1.

(** The generator of the test [dwa]: the same parameters with
    [use_dwa = true] and [sim_period = 1], in a [LimitedAccelGenerator]. *)
Definition dwa_generator : t := {|
  kinematics_ := KinematicParameters.initialize accel_params;
  velocity_iterator_ := [];
  samples_ := VelocityIterator.default_samples;
  policy_ := VelocityIterator.DynamicWindow 1;
  sim_time_ := 5;
  discretize_by_time_ := true;
  time_granularity_ := 1;
  linear_granularity_ := 5 # 10;
  angular_granularity_ := 25 # 1000
|}.

End StandardTrajectoryGenerator.

(** ** dwb_core/src/dwb_local_planner.cpp *)

(** [dwb_core::TrajectoryGenerator], the plugin interface the planner
    drives: the twists of one iteration, in the order [nextTwist] yields
    them, and the trajectory of a twist. *)
Class TrajectoryGenerator := {
  gen_twists : Twist2D -> list Twist2D;
  gen_trajectory : Pose2D -> Twist2D -> Twist2D -> Trajectory2D
}.

(** The standard generator as such a plugin. *)
Definition standard_generator {libm : Libm} (g : StandardTrajectoryGenerator.t)
    : TrajectoryGenerator := {|
  gen_twists v :=
    VelocityIterator.getTwists (StandardTrajectoryGenerator.kinematics_ g)
      (StandardTrajectoryGenerator.samples_ g)
      (StandardTrajectoryGenerator.policy_ g) v;
  gen_trajectory pose vel cmd :=
    fst (StandardTrajectoryGenerator.generateTrajectory g pose vel cmd)
|}.

Module DWBLocalPlanner.

(** What [TrajectoryCritic::scoreTrajectory] does: return a raw score or
    throw [IllegalTrajectoryException] with the critic's name and a
    message. *)
Inductive CriticResult :=
| Raw (critic_score : Q)
| Illegal (critic_name msg : String.string).

(** [dwb_core::TrajectoryCritic], as far as scoring uses it. *)
Record TrajectoryCritic := {
  getName : String.string;
  getScale : Q;
  critic_scoreTrajectory : Trajectory2D -> CriticResult
}.

(** [dwb_msgs::msg::CriticScore] *)
Record CriticScore := {
  cs_name : String.string;
  cs_raw_score : Q;
  cs_scale : Q
}.

(** [dwb_msgs::msg::TrajectoryScore] *)
Record TrajectoryScore := {
  traj : Trajectory2D;
  scores : list CriticScore;
  total : Q
}.

(** The outcome of a call that may throw [IllegalTrajectoryException]. *)
Inductive Scoring :=
| Scored (score : TrajectoryScore)
| IllegalTrajectoryException (critic_name msg : String.string).

(** The [for] loop of [scoreTrajectory], on the critics still to run and
    the score accumulated so far.  A critic of scale zero is recorded and
    skipped; [break] leaves with the partial score. *)
Fixpoint scoreCritics (critics : list TrajectoryCritic) (tr : Trajectory2D)
    (best_score : Q) (score : TrajectoryScore) : Scoring :=
  match critics with
  | [] => Scored score
  | critic :: rest =>
      if Qeqb (getScale critic) 0 then
        let cs := {| cs_name := getName critic; cs_raw_score := 0;
                     cs_scale := getScale critic |} in
        scoreCritics rest tr best_score
          {| traj := traj score; scores := scores score ++ [cs];
             total := total score |}
      else
        match critic_scoreTrajectory critic tr with
        | Illegal n m => IllegalTrajectoryException n m
        | Raw critic_score =>
            let cs := {| cs_name := getName critic;
                         cs_raw_score := critic_score;
                         cs_scale := getScale critic |} in
            let score' :=
              {| traj := traj score; scores := scores score ++ [cs];
                 total := total score + critic_score * getScale critic |} in
            if Qgtb best_score 0 && Qgtb (total score') best_score
            then Scored score'
            else scoreCritics rest tr best_score score'
        end
  end.

(** [DWBLocalPlanner::scoreTrajectory (traj, best_score)]. *)
Definition scoreTrajectory (critics : list TrajectoryCritic)
    (tr : Trajectory2D) (best_score : Q) : Scoring :=
  scoreCritics critics tr best_score
    {| traj := tr; scores := []; total := 0 |}.

(** [IllegalTrajectoryTracker], as far as the planner feeds it: the count
    of legal trajectories and the exceptions recorded. *)
Record IllegalTrajectoryTracker := {
  legal_count : nat;
  illegal : list (String.string * String.string)
}.

(** [std_msgs::msg::Header]: the time, as the clock of the node counts it,
    and the frame. *)
Record Header := {
  stamp : Z;
  frame_id : String.string
}.

(** [dwb_msgs::msg::LocalPlanEvaluation] *)
Record LocalPlanEvaluation := {
  header : Header;
  twists : list TrajectoryScore;
  best_index : nat;
  worst_index : nat
}.

(** The locals of [coreScoringAlgorithm] that live across the loop. *)
Record CoreState := {
  best : TrajectoryScore;
  worst : TrajectoryScore;
  tracker : IllegalTrajectoryTracker;
  results : option LocalPlanEvaluation
}.

Definition empty_trajectory : Trajectory2D :=
  {| velocity := mkTwist 0 0 0; duration := 0; poses := [] |}.

(** [best.total = -1; worst.total = -1;] and a fresh tracker. *)
Definition core_init (results : option LocalPlanEvaluation) : CoreState := {|
  best := {| traj := empty_trajectory; scores := []; total := -1 |};
  worst := {| traj := empty_trajectory; scores := []; total := -1 |};
  tracker := {| legal_count := 0; illegal := [] |};
  results := results
|}.

(** One turn of the [while] loop, for the trajectory [tr] of the next
    twist.  [threshold] is the second argument given to [scoreTrajectory]. *)
Definition core_step (critics : list TrajectoryCritic) (threshold : Q)
    (st : CoreState) (tr : Trajectory2D) : CoreState :=
  match scoreTrajectory critics tr threshold with
  | Scored score =>
      let tracker1 := {| legal_count := S (legal_count (tracker st));
                         illegal := illegal (tracker st) |} in
      let results1 :=
        match results st with
        | Some r => Some {| header := header r;
                            twists := twists r ++ [score];
                            best_index := best_index r;
                            worst_index := worst_index r |}
        | None => None
        end in
      let is_best := Qltb (total (best st)) 0
                     || Qltb (total score) (total (best st)) in
      let best2 := if is_best then score else best st in
      let results2 :=
        match results1 with
        | Some r => Some {| header := header r;
                            twists := twists r;
                            best_index := if is_best
                                          then (List.length (twists r) - 1)%nat
                                          else best_index r;
                            worst_index := worst_index r |}
        | None => None
        end in
      let is_worst := Qltb (total (worst st)) 0
                      || Qgtb (total score) (total (worst st)) in
      let worst3 := if is_worst then score else worst st in
      let results3 :=
        match results2 with
        | Some r => Some {| header := header r;
                            twists := twists r;
                            best_index := best_index r;
                            worst_index := if is_worst
                                           then (List.length (twists r) - 1)%nat
                                           else worst_index r |}
        | None => None
        end in
      {| best := best2; worst := worst3; tracker := tracker1;
         results := results3 |}
  | IllegalTrajectoryException name msg =>
      let results1 :=
        match results st with
        | Some r =>
            let cs := {| cs_name := name; cs_raw_score := -1; cs_scale := 0 |} in
            let failed_score := {| traj := tr; scores := [cs]; total := -1 |} in
            Some {| header := header r;
                    twists := twists r ++ [failed_score];
                    best_index := best_index r;
                    worst_index := worst_index r |}
        | None => None
        end in
      {| best := best st; worst := worst st;
         tracker := {| legal_count := legal_count (tracker st);
                       illegal := illegal (tracker st) ++ [(name, msg)] |};
         results := results1 |}
  end.

(** The [while (hasMoreTwists)] loop.  [early_exit] tells whether the best
    total so far is handed to [scoreTrajectory], as the code does, or the
    default [-1], which scores every trajectory in full. *)
Fixpoint core_loop (early_exit : bool) (critics : list TrajectoryCritic)
    (st : CoreState) (trajs : list Trajectory2D) : CoreState :=
  match trajs with
  | [] => st
  | tr :: trajs' =>
      let threshold := if early_exit then total (best st) else -1 in
      core_loop early_exit critics (core_step critics threshold st tr) trajs'
  end.

(** What [coreScoringAlgorithm] ends with. *)
Inductive CoreResult :=
| Best (score : TrajectoryScore) (results : option LocalPlanEvaluation)
| NoLegalTrajectoriesException (tr : IllegalTrajectoryTracker)
    (results : option LocalPlanEvaluation).

Definition core_finish (st : CoreState) : CoreResult :=
  if Qltb (total (best st)) 0
  then NoLegalTrajectoriesException (tracker st) (results st)
  else Best (best st) (results st).

Section Core.
Context {traj_generator_ : TrajectoryGenerator}.

(** The trajectories of one cycle, in the order of the twists. *)
Definition candidates (pose : Pose2D) (velocity : Twist2D)
    : list Trajectory2D :=
  map (gen_trajectory pose velocity) (gen_twists velocity).

(** [DWBLocalPlanner::coreScoringAlgorithm]. *)
Definition coreScoringAlgorithm (critics_ : list TrajectoryCritic)
    (pose : Pose2D) (velocity : Twist2D)
    (results : option LocalPlanEvaluation) : CoreResult :=
  core_finish
    (core_loop true critics_ (core_init results) (candidates pose velocity)).

(** The same search with every trajectory scored in full: the reference
    that early exit is compared with. *)
Definition coreScoringAlgorithm_full (critics_ : list TrajectoryCritic)
    (pose : Pose2D) (velocity : Twist2D)
    (results : option LocalPlanEvaluation) : CoreResult :=
  core_finish
    (core_loop false critics_ (core_init results) (candidates pose velocity)).

End Core.

(** The trajectory selected as best, if any. *)
Definition selected (r : CoreResult) : option TrajectoryScore :=
  match r with
  | Best score _ => Some score
  | NoLegalTrajectoriesException _ _ => None
  end.

(** *** What early exit relies on *)

(** Every critic returns a raw score that is not negative. *)
Definition raw_scores_nonneg (critics : list TrajectoryCritic) : Prop :=
Forall (fun c => forall tr q, critic_scoreTrajectory c tr = Raw q -> 0 <= q)
       critics.

(** Every critic has a weight that is not negative. *)
Definition scales_nonneg (critics : list TrajectoryCritic) : Prop :=
Forall (fun c => 0 <= getScale c) critics.

(** The outcome of scoring with a threshold, against scoring in full: the
  same, or a partial score above the threshold, of a trajectory whose full
  score, if it is legal at all, is no smaller. *)
Definition cut_short (bs : Q) (early full : Scoring) : Prop :=
exists p, early = Scored p /\ bs < total p /\
  match full with
  | Scored f => total p <= total f
  | IllegalTrajectoryException _ _ => True
  end.

(** What the search scoring in full keeps as best is a full score. *)
Definition fully_scored (critics : list TrajectoryCritic) (b : TrajectoryScore)
  : Prop :=
scoreTrajectory critics (traj b) (-1) = Scored b.

(** *** A two-critic, two-twist planner *)

(** A generator that yields two twists and a one-pose trajectory each. *)
Definition two_twists : TrajectoryGenerator := {|
gen_twists _ := [mkTwist 1 0 0; mkTwist 2 (3 # 2) 0];
gen_trajectory pose _ cmd := {| velocity := cmd; duration := 0; poses := [pose] |}
|}.

(** A critic that scores the forward speed of the command. *)
Definition speed_critic (scale : Q) : TrajectoryCritic := {|
getName := "Speed";
getScale := scale;
critic_scoreTrajectory tr := Raw (Qabs (tw_x (velocity tr)))
|}.

(** A critic that scores the sideways speed of the command. *)
Definition strafe_critic (scale : Q) : TrajectoryCritic := {|
getName := "Strafe";
getScale := scale;
critic_scoreTrajectory tr := Raw (Qabs (tw_y (velocity tr)))
|}.

(** *** The window on the global plan *)

(** [getSquareDistance], on exact numbers: what is proved of the window is
    stated on the comparisons of its value with the thresholds. *)
Definition getSquareDistance (pose_a pose_b : Pose2D) : Q :=
  let x_diff := p_x pose_a - p_x pose_b in
  let y_diff := p_y pose_a - p_y pose_b in
  x_diff * x_diff + y_diff * y_diff.

(** [std::find_if] on a range that runs to the end of the vector.  An
    iterator is the part of the vector from its position on; [end()] is
    the empty list. *)
Fixpoint find_if {A} (pred : A -> bool) (l : list A) : list A :=
  match l with
  | [] => []
  | a :: l' => if pred a then l else find_if pred l'
  end.

(** The elements of the range [[first, last)], where [last] is a position
    at or after [first] in the same vector. *)
Definition range {A} (first last : list A) : list A :=
  firstn (List.length first - List.length last) first.

(** What the planner asks of tf and of the costmap. *)
Record Collaborators := {
  (** [transformPose] of the robot pose into the frame of the plan *)
  robot_in_plan_frame : Pose2D -> option Pose2D;
  (** [transformPose] of a pose of the plan into the costmap frame *)
  plan_pose_to_local : Pose2D -> Pose2D;
  getSizeInCellsX : N;
  getSizeInCellsY : N;
  getResolution : Q
}.

(** The members [transformGlobalPlan] reads and writes. *)
Record Plan := {
  global_plan_ : list Pose2D;
  prune_plan_ : bool;
  prune_distance_ : Q
}.

Inductive PlanResult :=
| TransformedPlan (transformed_plan : list Pose2D)
| PlannerException (what : String.string)
| PlannerTFException (what : String.string).

Definition set_global_plan (pl : Plan) (path : list Pose2D) : Plan :=
  {| global_plan_ := path; prune_plan_ := prune_plan_ pl;
     prune_distance_ := prune_distance_ pl |}.

(** [setPlan]: the stored plan is replaced. *)
Definition setPlan (pl : Plan) (path : list Pose2D) : Plan :=
  set_global_plan pl path.

Section Window.
Variable env : Collaborators.

Definition sq_dist_threshold : Q :=
  let dist_threshold :=
    inject_Z (Z.of_N (N.max (getSizeInCellsX env) (getSizeInCellsY env)))
    * getResolution env / 2 in
  dist_threshold * dist_threshold.

Definition sq_transform_start_threshold (pl : Plan) : Q :=
  let sq_prune_dist := prune_distance_ pl * prune_distance_ pl in
  if prune_plan_ pl then Qmin sq_dist_threshold sq_prune_dist
  else sq_dist_threshold.

(** [shorten_transformed_plan] is the constant [true]. *)
Definition sq_transform_end_threshold (pl : Plan) : Q :=
  let sq_prune_dist := prune_distance_ pl * prune_distance_ pl in
  Qmin sq_dist_threshold sq_prune_dist.

(** The first pose nearer to the robot than the start threshold. *)
Definition transformation_begin (pl : Plan) (robot_pose : Pose2D)
    : list Pose2D :=
  find_if (fun global_plan_pose =>
             Qltb (getSquareDistance robot_pose global_plan_pose)
                  (sq_transform_start_threshold pl))
          (global_plan_ pl).

(** From there, the first pose farther than the end threshold. *)
Definition transformation_end (pl : Plan) (robot_pose : Pose2D)
    : list Pose2D :=
  find_if (fun global_plan_pose =>
             Qgtb (getSquareDistance robot_pose global_plan_pose)
                  (sq_transform_end_threshold pl))
          (transformation_begin pl robot_pose).

(** The poses of the stored plan that make the window, before they are
    transformed. *)
Definition window (pl : Plan) (robot_pose : Pose2D) : list Pose2D :=
  range (transformation_begin pl robot_pose)
        (transformation_end pl robot_pose).

(** [DWBLocalPlanner::transformGlobalPlan]: the planner after the call
    and what the call returns or throws.  The two early throws leave the
    plan as it was; the last one comes after the erase. *)
Definition transformGlobalPlan (pl : Plan) (pose : Pose2D)
    : Plan * PlanResult :=
  match global_plan_ pl with
  | [] => (pl, PlannerException "Received plan with zero length"%string)
  | _ :: _ =>
      match robot_in_plan_frame env pose with
      | None =>
          (pl, PlannerTFException
                 "Unable to transform robot pose into global plan's frame"%string)
      | Some robot_pose =>
          let transformed_plan :=
            map (plan_pose_to_local env) (window pl robot_pose) in
          let pl' :=
            if prune_plan_ pl
            then set_global_plan pl (transformation_begin pl robot_pose)
            else pl in
          match transformed_plan with
          | [] => (pl', PlannerException "Resulting plan has 0 poses in it."%string)
          | _ :: _ => (pl', TransformedPlan transformed_plan)
          end
      end
  end.

(** A run of control cycles: [transformGlobalPlan] once per robot pose,
    each on the plan the call before left. *)
Fixpoint cycles (pl : Plan) (robot_poses : list Pose2D)
    : Plan * list PlanResult :=
  match robot_poses with
  | [] => (pl, [])
  | pose :: rest =>
      let (pl1, r) := transformGlobalPlan pl pose in
      let (pl2, rs) := cycles pl1 rest in
      (pl2, r :: rs)
  end.

End Window.

(** *** A plan along the x axis *)

(** A costmap of 60 by 60 cells of 5 cm (a reach of 1.5 m) and frames that
    coincide. *)
Definition square_costmap : Collaborators := {|
  robot_in_plan_frame pose := Some pose;
  plan_pose_to_local pose := pose;
  getSizeInCellsX := 60;
  getSizeInCellsY := 60;
  getResolution := 5 # 100
|}.

(** Four poses on the x axis, pruning on, prune distance 1 m. *)
Definition straight_plan : Plan := {|
  global_plan_ := [mkPose (-3) 0 0; mkPose 0 0 0; mkPose (1 # 2) 0 0;
                   mkPose 5 0 0];
  prune_plan_ := true;
  prune_distance_ := 1
|}.

(** A plan that leads away from the robot at the origin and back past it:
    two poses two and three metres in front of it, then one half a metre in
    front, then the goal three metres to the side. *)
Definition detour_plan : Plan := {|
  global_plan_ := [mkPose 2 0 0; mkPose 3 0 0; mkPose (1 # 2) 0 0;
                   mkPose (1 # 2) 3 0];
  prune_plan_ := true;
  prune_distance_ := 1
|}.

End DWBLocalPlanner.

(** ** Goal checking *)

(** The goal checkers compare headings modulo a full turn, so their poses
    and tolerances are real numbers and [M_PI] is [PI]. *)
Module SimpleGoalChecker.

Record Pose := { x : R; y : R; theta : R }.
Record Twist := { vx : R; vy : R; vtheta : R }.

Record t := { xy_goal_tolerance_ : R; yaw_goal_tolerance_ : R }.

Definition Rleb (a b : R) : bool := if Rle_dec a b then true else false.

(** Modelled from the spec: the normalisation of an angle into
    [[-PI, PI]] (the [angles] helper is not among the sources): the angle
    less the whole turns in it, counted from [-PI]. *)
Definition normalize_angle (a : R) : R :=
  (a - 2 * PI * IZR (Int_part ((a + PI) / (2 * PI))))%R.

(** Modelled from the spec: the heading difference, normalised. *)
Definition shortest_angular_distance (from to : R) : R :=
  normalize_angle (to - from).

(** The position distance between two poses. *)
Definition distance (a b : Pose) : R :=
  sqrt ((x a - x b) * (x a - x b) + (y a - y b) * (y a - y b)).

(** Modelled from the spec: [SimpleGoalChecker::isGoalReached]
    (dwb_plugins/src/simple_goal_checker.cpp is not among the sources; only
    its test is).  Section 4.7, proximity variant: the position distance
    within the tolerance and the normalised heading difference within the
    tolerance; the velocity is not looked at. *)
Definition isGoalReached (gc : t) (query_pose goal_pose : Pose) (velocity : Twist)
    : bool :=
  Rleb (distance query_pose goal_pose) (xy_goal_tolerance_ gc) &&
  Rleb (Rabs (shortest_angular_distance (theta query_pose) (theta goal_pose)))
       (yaw_goal_tolerance_ gc).

Definition pose (x0 y0 theta0 : R) : Pose :=
  {| x := x0; y := y0; theta := theta0 |}.

Definition stopped : Twist := {| vx := 0; vy := 0; vtheta := 0 |}.

End SimpleGoalChecker.

(** ** Fixtures of test/twist_gen.cpp *)

Definition zero : Twist2D := mkTwist 0 0 0.
Definition forward : Twist2D := mkTwist (3 # 10) 0 0.
Definition origin : Pose2D := mkPose 0 0 0.

(** The node of the tests [no_limits] and [no_limits_samples]: the three
    magnitude thresholds set to [-1.0]. *)
Definition no_limits_params : KinematicParameters.Params :=
  set_speed_thresholds getDefaultKinematicParameters (-1) (-1) (-1).


(** The number of twists [getTwists] returns. *)
Definition twist_count (nh : KinematicParameters.Params)
    (s : VelocityIterator.Samples) (p : VelocityIterator.Policy)
    (current_velocity : Twist2D) : nat :=
  length (VelocityIterator.getTwists (KinematicParameters.initialize nh) s p
            current_velocity).

(** The same count taken on the samples in lowest terms; it evaluates
    faster, and [isValidSpeed] cannot tell the difference. *)
Definition twist_count_reduced (nh : KinematicParameters.Params)
    (s : VelocityIterator.Samples) (p : VelocityIterator.Policy)
    (current_velocity : Twist2D) : nat :=
  let k := KinematicParameters.initialize nh in
  length
    (filter (VelocityIterator.isValidVelocity k)
       (VelocityIterator.grid3
          (map Qred (VelocityIterator.samples_x k s p current_velocity))
          (map Qred (VelocityIterator.samples_y k s p current_velocity))
          (map Qred (VelocityIterator.samples_theta k s p current_velocity)))).

(* ------------------------------------------------------------------ *)
(** ** Further code of the planner *)
(* ------------------------------------------------------------------ *)

(** ** More of dwb_plugins/kinematic_parameters.cpp *)

(** One set of thresholds asks no more than another: each of its three
    thresholds is disabled (negative) or no stricter than the other's. *)
Definition relaxes (nh nh' : KinematicParameters.Params) : Prop :=
  (KinematicParameters.max_speed_xy nh' < 0 \/
   0 <= KinematicParameters.max_speed_xy nh
     <= KinematicParameters.max_speed_xy nh') /\
  (KinematicParameters.min_speed_xy nh' < 0 \/
   0 <= KinematicParameters.min_speed_xy nh'
     <= KinematicParameters.min_speed_xy nh) /\
  (KinematicParameters.min_speed_theta nh' < 0 \/
   0 <= KinematicParameters.min_speed_theta nh'
     <= KinematicParameters.min_speed_theta nh).

(** ** nav_2d_utils/odom_subscriber.hpp *)

Module OdomSubscriber.

(** The members the callback reads and writes. *)
Record t := {
  odom_vel_ : Twist2D;
  min_x_velocity_threshold_ : Q;
  min_y_velocity_threshold_ : Q;
  min_theta_velocity_threshold_ : Q
}.

(** [thresholded_velocity] *)
Definition thresholded_velocity (velocity threshold : Q) : Q :=
  if Qgtb (Qabs velocity) threshold then velocity else 0.

(** [odomCallback], on the linear x, linear y and angular z of the
    message's twist. *)
Definition odomCallback (s : t) (linear_x linear_y angular_z : Q) : t := {|
  odom_vel_ :=
    {| tw_x := thresholded_velocity linear_x (min_x_velocity_threshold_ s);
       tw_y := thresholded_velocity linear_y (min_y_velocity_threshold_ s);
       tw_theta := thresholded_velocity angular_z
                     (min_theta_velocity_threshold_ s) |};
  min_x_velocity_threshold_ := min_x_velocity_threshold_ s;
  min_y_velocity_threshold_ := min_y_velocity_threshold_ s;
  min_theta_velocity_threshold_ := min_theta_velocity_threshold_ s
|}.

(** [getTwist] *)
Definition getTwist (s : t) : Twist2D := odom_vel_ s.

End OdomSubscriber.

(** ** More of dwb_core/src/dwb_local_planner.cpp *)

Module PlannerSetup.

(** [s.find (needle) != std::string::npos]: [needle] occurs in [s]. *)
Fixpoint contains (needle s : string) : bool :=
  prefix needle s ||
  match s with
  | EmptyString => false
  | String _ s' => contains needle s'
  end.

(** The [for] loop of [resolveCriticClassName]: the first default namespace
    under which the class is available. *)
Fixpoint first_available (isClassAvailable : string -> bool)
    (namespaces : list string) (base_name : string) : option string :=
  match namespaces with
  | [] => None
  | ns :: rest =>
      let full_name := (ns ++ "::" ++ base_name)%string in
      if isClassAvailable full_name then Some full_name
      else first_available isClassAvailable rest base_name
  end.

(** [DWBLocalPlanner::resolveCriticClassName]; [isClassAvailable] is the
    class loader's. *)
Definition resolveCriticClassName (default_critic_namespaces_ : list string)
    (isClassAvailable : string -> bool) (base_name : string) : string :=
  let base_name :=
    if contains "Critic" base_name then base_name
    else (base_name ++ "Critic")%string in
  if contains "::" base_name then base_name
  else
    match first_available isClassAvailable default_critic_namespaces_ base_name with
    | Some full_name => full_name
    | None => base_name
    end.

End PlannerSetup.

Module PlannerCycle.
Import DWBLocalPlanner.



(** Two critics that scoring cannot tell apart: the same name and scale,
    and the same scores unless the scale is zero. *)
Definition alike (c c' : TrajectoryCritic) : Prop :=
  getName c = getName c' /\ getScale c = getScale c' /\
  (getScale c == 0 \/
   forall tr, critic_scoreTrajectory c tr = critic_scoreTrajectory c' tr).

(** A critic that rejects every trajectory. *)
Definition forbidding_critic (scale : Q) : TrajectoryCritic := {|
  getName := "Forbid";
  getScale := scale;
  critic_scoreTrajectory _ := Illegal "Forbid" "not allowed"
|}.

(** A critic objects to a trajectory: it has a weight and throws. *)
Definition objects (tr : Trajectory2D) (c : TrajectoryCritic) : Prop :=
  ~ getScale c == 0 /\
  exists n m, critic_scoreTrajectory c tr = Illegal n m.

(** The tracker a call of [coreScoringAlgorithm] throws, if it throws. *)
Definition thrown (r : CoreResult) : option IllegalTrajectoryTracker :=
  match r with
  | Best _ _ => None
  | NoLegalTrajectoriesException t _ => Some t
  end.

(** The best score so far is still the initial one, or it is the score of
    one of the trajectories seen, recorded at [best_index] when an
    evaluation is kept. *)
Definition best_found (critics : list TrajectoryCritic)
    (seen : list Trajectory2D) (st : CoreState) : Prop :=
  In (traj (best st)) seen /\
  match results st with
  | Some r => nth_error (twists r) (best_index r) = Some (best st)
  | None => True
  end.

(** Scored in full, a trajectory is illegal. *)
Definition illegal_in_full (critics : list TrajectoryCritic) (tr : Trajectory2D)
    : Prop :=
  exists n m, scoreTrajectory critics tr (-1) = IllegalTrajectoryException n m.

(** A total is no larger than the full total of any legal trajectory of a
    list. *)
Definition cheapest (critics : list TrajectoryCritic) (trajs : list Trajectory2D)
    (t : Q) : Prop :=
  forall tr f, In tr trajs -> scoreTrajectory critics tr (-1) = Scored f ->
               t <= total f.

(** The evaluation a call of [coreScoringAlgorithm] leaves in [results]. *)
Definition evaluation (r : CoreResult) : option LocalPlanEvaluation :=
  match r with
  | Best _ results => results
  | NoLegalTrajectoriesException _ results => results
  end.

(** [DWBLocalPlanner::isGoalReached]: [false] without a plan; otherwise the
    goal checker's answer for the robot pose and the last pose of the plan,
    both in the frame of the costmap.  [robot_to_local] is [transformPose]
    on the robot pose, [goal_checker_] the plugin's [isGoalReached]. *)
Definition isGoalReached (env : Collaborators)
    (robot_to_local : Pose2D -> Pose2D)
    (goal_checker_ : Pose2D -> Pose2D -> Twist2D -> bool)
    (pl : Plan) (pose : Pose2D) (velocity : Twist2D) : bool :=
  match global_plan_ pl with
  | [] => false
  | g :: gs =>
      let local_start_pose := robot_to_local pose in
      let goal_pose := last (g :: gs) g in
      let local_goal_pose := plan_pose_to_local env goal_pose in
      goal_checker_ local_start_pose local_goal_pose velocity
  end.

(** What [prepareGlobalPlan] hands back through its reference arguments, or
    the exception [transformGlobalPlan] threw. *)
Inductive Prepared :=
| PreparedPlan (transformed_plan : list Pose2D) (goal_pose : Pose2D)
| PrepareFailed (e : PlanResult).

(** [DWBLocalPlanner::prepareGlobalPlan]: the window, then the last pose of
    the plan as it is after the call of [transformGlobalPlan]. *)
Definition prepareGlobalPlan (env : Collaborators) (pl : Plan) (pose : Pose2D)
    : Plan * Prepared :=
  match transformGlobalPlan env pl pose with
  | (pl', TransformedPlan transformed_plan) =>
      let goal_pose :=
        match global_plan_ pl' with
        | [] => mkPose 0 0 0
        | g :: gs => last (g :: gs) g
        end in
      (pl', PreparedPlan transformed_plan (plan_pose_to_local env goal_pose))
  | (pl', e) => (pl', PrepareFailed e)
  end.

(** A critic with the state it keeps between calls.  [prepare] and
    [debrief] may change the state; scoring reads it. *)
Record Critic (S : Type) := {
  name : string;
  scale : Q;
  prepare : S -> Pose2D -> Twist2D -> Pose2D -> list Pose2D -> bool * S;
  score : S -> Trajectory2D -> CriticResult;
  debrief : S -> Twist2D -> S;
  reset : S -> S
}.
Arguments name {S}.
Arguments scale {S}.
Arguments prepare {S}.
Arguments score {S}.
Arguments debrief {S}.
Arguments reset {S}.

(** A loaded critic: the plugin and its current state. *)
Definition Loaded (S : Type) : Type := Critic S * S.

(** The critic as [scoreTrajectory] sees it. *)
Definition scoring {S} (c : Loaded S) : TrajectoryCritic := {|
  getName := name (fst c);
  getScale := scale (fst c);
  critic_scoreTrajectory := score (fst c) (snd c)
|}.

(** The first loop of [computeVelocityCommands]: [prepare] on every critic;
    a [false] is logged and otherwise ignored. *)
Definition prepare_all {S} (critics_ : list (Loaded S)) (pose : Pose2D)
    (velocity : Twist2D) (goal : Pose2D) (transformed_plan : list Pose2D)
    : list (Loaded S) :=
  map (fun c => (fst c, snd (prepare (fst c) (snd c) pose velocity goal
                               transformed_plan)))
      critics_.

(** The loop "debrief stateful scoring functions". *)
Definition debrief_all {S} (critics_ : list (Loaded S)) (cmd_vel : Twist2D)
    : list (Loaded S) :=
  map (fun c => (fst c, debrief (fst c) (snd c) cmd_vel)) critics_.

(** The critics and the plan: the members a control cycle changes. *)
Record Planner (S : Type) := {
  plan : Plan;
  critics_ : list (Loaded S)
}.
Arguments plan {S}.
Arguments critics_ {S}.

(** How a call of [computeVelocityCommands] ends: with the velocity of the
    command and the trajectory published as local plan, or with one of the
    exceptions. *)
Inductive Command :=
| CmdVel (velocity : Twist2D) (local_plan : Trajectory2D)
| NoLegalTrajectories (tr : IllegalTrajectoryTracker) (local_plan : Trajectory2D)
| PlanFailure (e : PlanResult).

(** The twist a trajectory was generated for. *)
Definition commanded (tr : Trajectory2D) : Twist2D := velocity tr.

(** A default-constructed evaluation, as [std::make_shared] gives it. *)
Definition empty_evaluation : LocalPlanEvaluation :=
  {| header := {| stamp := 0; frame_id := EmptyString |};
     twists := []; best_index := 0; worst_index := 0 |}.

(** The first statement of [computeVelocityCommands]: when an evaluation
    is kept, its header takes the frame of the pose and the time of the
    call. *)
Definition stamp_results (results : option LocalPlanEvaluation)
    (pose_frame_id : String.string) (now : Z) : option LocalPlanEvaluation :=
  match results with
  | Some r =>
      Some {| header := {| stamp := now; frame_id := pose_frame_id |};
              twists := twists r;
              best_index := best_index r;
              worst_index := worst_index r |}
  | None => None
  end.

Section Cycle.
Context {S : Type} {traj_generator_ : TrajectoryGenerator}.
Variable env : Collaborators.

(** What a call reads besides its arguments: [pose.header.frame_id] and the
    clock of the node, [node_->now()]. *)
Variable pose_frame_id : String.string.
Variable now : Z.

(** [DWBLocalPlanner::setPlan]: every critic is reset, the plan replaced. *)
Definition setPlan (p : Planner S) (path : list Pose2D) : Planner S := {|
  plan := DWBLocalPlanner.setPlan (plan p) path;
  critics_ := map (fun c => (fst c, reset (fst c) (snd c))) (critics_ p)
|}.

(** [DWBLocalPlanner::computeVelocityCommands (pose, velocity, results)]:
    the planner after the call, how the call ended and the evaluation. *)
Definition computeVelocityCommands (p : Planner S) (pose : Pose2D)
    (velocity : Twist2D) (results : option LocalPlanEvaluation)
    : Planner S * Command * option LocalPlanEvaluation :=
  let results := stamp_results results pose_frame_id now in
  match prepareGlobalPlan env (plan p) pose with
  | (pl', PrepareFailed e) =>
      ({| plan := pl'; critics_ := critics_ p |}, PlanFailure e, results)
  | (pl', PreparedPlan transformed_plan goal_pose) =>
      let prepared :=
        prepare_all (critics_ p) pose velocity goal_pose transformed_plan in
      match coreScoringAlgorithm (map scoring prepared) pose velocity results with
      | Best best results' =>
          let cmd_vel := commanded (traj best) in
          ({| plan := pl'; critics_ := debrief_all prepared cmd_vel |},
           CmdVel cmd_vel (traj best), results')
      | NoLegalTrajectoriesException tracker results' =>
          let empty_cmd := mkTwist 0 0 0 in
          ({| plan := pl'; critics_ := debrief_all prepared empty_cmd |},
           NoLegalTrajectories tracker empty_trajectory, results')
      end
  end.

(** [DWBLocalPlanner::computeVelocityCommands (pose, velocity)]: the same
    with an evaluation to fill when the publisher records one. *)
Definition computeVelocityCommands_published (p : Planner S) (pose : Pose2D)
    (velocity : Twist2D) (shouldRecordEvaluation : bool)
    : Planner S * Command * option LocalPlanEvaluation :=
  computeVelocityCommands p pose velocity
    (if shouldRecordEvaluation then Some empty_evaluation else None).

End Cycle.

(** *** A planner with two critics *)

(** A critic without state of its own. *)
Definition stateless (c : TrajectoryCritic) : Loaded unit :=
  ({| name := getName c;
      scale := getScale c;
      prepare _ _ _ _ _ := (true, tt);
      score _ := critic_scoreTrajectory c;
      debrief _ _ := tt;
      reset _ := tt |}, tt).

(** The plan along the x axis and the two critics of the scoring examples. *)
Definition two_critic_planner : Planner unit := {|
  plan := straight_plan;
  critics_ := [stateless (speed_critic 1); stateless (strafe_critic (1 # 2))]
|}.

End PlannerCycle.

(* ================================================================== *)
(** * Part II -- properties *)
(* ================================================================== *)

(** ** Comparison tests against the order of [Q] *)

Lemma Qleb_iff a b : Qleb a b = true <-> a <= b.
Proof. apply Qle_bool_iff. Qed.

Lemma Qgeb_iff a b : Qgeb a b = true <-> b <= a.
Proof. apply Qle_bool_iff. Qed.

Lemma Qltb_iff a b : Qltb a b = true <-> a < b.
Proof.
  unfold Qltb. rewrite negb_true_iff, <- not_true_iff_false, Qle_bool_iff.
  split; [apply Qnot_le_lt | apply Qlt_not_le].
Qed.

Lemma Qgtb_iff a b : Qgtb a b = true <-> b < a.
Proof. apply Qltb_iff. Qed.

Lemma Qeqb_iff a b : Qeqb a b = true <-> a == b.
Proof. apply Qeq_bool_iff. Qed.

Create Rewrite HintDb qtest.
#[local] Hint Rewrite Qleb_iff Qgeb_iff Qltb_iff Qgtb_iff Qeqb_iff
  andb_true_iff orb_true_iff negb_true_iff : qtest.

(** ** Kinematic model *)

Module KinematicFacts.
Import KinematicParameters.

(** [isValidSpeed] is the conjunction of its three guards failing. *)
Lemma isValidSpeed_guards k x y theta :
  isValidSpeed k x y theta =
  negb (too_fast k x y) && negb (too_slow k x y theta)
    && negb (null_command x y theta).
Proof.
  unfold isValidSpeed, too_fast, too_slow, null_command.
  destruct (Qgeb (max_speed_xy_ k) 0 && _); [reflexivity|].
  destruct (Qgeb (min_speed_xy_ k) 0 && _ && _ && _); [reflexivity|].
  destruct (Qeqb _ 0 && _); reflexivity.
Qed.

Lemma Q2R_vmag_sq x y :
  Q2R (x * x + y * y) = (Q2R x * Q2R x + Q2R y * Q2R y)%R.
Proof. now rewrite Q2R_plus, !Q2R_mult. Qed.

Lemma vmag_sq_nonneg x y : (0 <= Q2R x * Q2R x + Q2R y * Q2R y)%R.
Proof. nra. Qed.

(** Comparing squares is comparing magnitudes, for a threshold [m >= 0]. *)
Lemma hypot_gt m x y :
  0 <= m -> (Q2R m < hypot x y)%R <-> m * m < x * x + y * y.
Proof.
  intros Hm. apply Qle_Rle in Hm. rewrite RMicromega.Q2R_0 in Hm.
  unfold hypot. pose proof (vmag_sq_nonneg x y) as Ha.
  rewrite <- (sqrt_square (Q2R m)) at 1 by assumption.
  split; intros H.
  - apply Rlt_Qlt. rewrite Q2R_vmag_sq, Q2R_mult.
    apply sqrt_lt_0; [nra | assumption | assumption].
  - apply Qlt_Rlt in H. rewrite Q2R_vmag_sq, Q2R_mult in H.
    apply sqrt_lt_1; [nra | assumption | assumption].
Qed.

Lemma hypot_lt m x y :
  0 <= m -> (hypot x y < Q2R m)%R <-> x * x + y * y < m * m.
Proof.
  intros Hm. apply Qle_Rle in Hm. rewrite RMicromega.Q2R_0 in Hm.
  unfold hypot. pose proof (vmag_sq_nonneg x y) as Ha.
  rewrite <- (sqrt_square (Q2R m)) at 1 by assumption.
  split; intros H.
  - apply Rlt_Qlt. rewrite Q2R_vmag_sq, Q2R_mult.
    apply sqrt_lt_0; [assumption | nra | assumption].
  - apply Qlt_Rlt in H. rewrite Q2R_vmag_sq, Q2R_mult in H.
    apply sqrt_lt_1; [assumption | nra | assumption].
Qed.

Lemma hypot_zero x y : hypot x y = 0%R <-> x * x + y * y == 0.
Proof.
  unfold hypot. pose proof (vmag_sq_nonneg x y) as Ha. split; intros H.
  - apply eqR_Qeq. rewrite Q2R_vmag_sq, RMicromega.Q2R_0.
    now apply sqrt_eq_0.
  - apply Qeq_eqR in H. rewrite Q2R_vmag_sq, RMicromega.Q2R_0 in H.
    rewrite H. apply sqrt_0.
Qed.

Lemma too_fast_iff nh x y :
  too_fast (initialize nh) x y = true <->
  0 <= max_speed_xy nh /\ (Q2R (max_speed_xy nh) < hypot x y)%R.
Proof.
  unfold too_fast; cbn. autorewrite with qtest.
  split; intros [H1 H2]; (split; [assumption|]); now apply hypot_gt.
Qed.

Lemma too_slow_iff nh x y theta :
  too_slow (initialize nh) x y theta = true <->
  0 <= min_speed_xy nh /\ (hypot x y < Q2R (min_speed_xy nh))%R /\
  0 <= min_speed_theta nh /\ Qabs theta < min_speed_theta nh.
Proof.
  unfold too_slow, fabs; cbn. autorewrite with qtest.
  split.
  - intros [[[H1 H2] H3] H4]. repeat split; try assumption. now apply hypot_lt.
  - intros (H1 & H2 & H3 & H4). repeat split; try assumption. now apply hypot_lt.
Qed.

Lemma null_command_iff x y theta :
  null_command x y theta = true <-> hypot x y = 0%R /\ theta == 0.
Proof.
  unfold null_command. autorewrite with qtest. now rewrite hypot_zero.
Qed.

(** In exact arithmetic the three guards are the conditions on
    [hypot(vx,vy)] of the documentation. *)
Lemma exact_arithmetic_false_iff nh vx vy vtheta :
  isValidSpeed (initialize nh) vx vy vtheta = false <->
    (0 <= max_speed_xy nh /\ (Q2R (max_speed_xy nh) < hypot vx vy)%R)
    \/ (0 <= min_speed_xy nh /\ (hypot vx vy < Q2R (min_speed_xy nh))%R /\
        0 <= min_speed_theta nh /\ Qabs vtheta < min_speed_theta nh)
    \/ (hypot vx vy = 0%R /\ vtheta == 0).
Proof.
  rewrite isValidSpeed_guards.
  rewrite <- too_fast_iff, <- too_slow_iff, <- null_command_iff.
  destruct (too_fast _ vx vy), (too_slow _ vx vy vtheta),
    (null_command vx vy vtheta); cbn; intuition congruence.
Qed.

Lemma too_slow_disabled k x y theta :
  min_speed_xy_ k < 0 \/ min_speed_theta_ k < 0 -> too_slow k x y theta = false.
Proof.
  intros H. unfold too_slow.
  destruct (Qgeb (min_speed_xy_ k) 0) eqn:E1; [|reflexivity].
  destruct (Qgeb (min_speed_theta_ k) 0) eqn:E2;
    [|now rewrite andb_false_r].
  apply Qgeb_iff in E1, E2. destruct H as [H|H]; lra.
Qed.

Lemma too_fast_disabled k x y :
  max_speed_xy_ k < 0 -> too_fast k x y = false.
Proof.
  intros H. unfold too_fast.
  destruct (Qgeb (max_speed_xy_ k) 0) eqn:E1; [|reflexivity].
  apply Qgeb_iff in E1. lra.
Qed.

End KinematicFacts.

(** ** Kinematic model, on binary64 *)

Module Binary64Facts.
Import PrimFloat FloatOps SpecFloat FloatAxioms.
Import Binary64 Binary64.KinematicParameters.

(** A [double] below zero fails the test [>= 0.0]. *)
Lemma negative_fails_geb x : ltb x 0 = true -> geb x 0 = false.
Proof.
  unfold geb. rewrite ltb_spec, leb_spec.
  change (Prim2SF 0) with (S754_zero false).
  destruct (Prim2SF x) as [s|s| |s m e]; cbn; try discriminate;
    destruct s; cbn; congruence.
Qed.

(** The three early returns of [isValidSpeed], through [initialize]. *)
Lemma isValidSpeed_returns nh vx vy vtheta :
  isValidSpeed (initialize nh) vx vy vtheta =
  negb (geb (max_speed_xy nh) 0
        && gtb (vx * vx + vy * vy) (max_speed_xy nh * max_speed_xy nh))
  && negb (geb (min_speed_xy nh) 0
           && ltb (vx * vx + vy * vy) (min_speed_xy nh * min_speed_xy nh)
           && geb (min_speed_theta nh) 0
           && ltb (fabs vtheta) (min_speed_theta nh))
  && negb (eqb (vx * vx + vy * vy) 0 && eqb vtheta 0).
Proof.
  unfold isValidSpeed, initialize.
  cbn [max_speed_xy_ max_speed_xy_sq_ min_speed_xy_ min_speed_xy_sq_
       min_speed_theta_].
  destruct (geb (max_speed_xy nh) 0 && _); [reflexivity|].
  destruct (geb (min_speed_xy nh) 0 && _ && _ && _); [reflexivity|].
  destruct (eqb _ 0 && _); reflexivity.
Qed.

(** C2. On [double], [isValidSpeed] answers [false] exactly when, with
    [vmag_sq] the sum [vx * vx + vy * vy] as computed, (a) the maximum
    combined magnitude is configured ([>= 0]) and [vmag_sq] exceeds its
    computed square, or (b) the minimum combined magnitude and the minimum
    rotational speed are both configured, [vmag_sq] is below the computed
    square of the one and [fabs(vtheta)] below the other, or (c) [vmag_sq]
    and [vtheta] both compare equal to zero; it answers [true] otherwise. *)
Theorem isValidSpeed_false_iff nh vx vy vtheta :
  let vmag_sq := (vx * vx + vy * vy)%float in
  isValidSpeed (initialize nh) vx vy vtheta = false <->
    (geb (max_speed_xy nh) 0 = true /\
     gtb vmag_sq (max_speed_xy nh * max_speed_xy nh) = true)
    \/ (geb (min_speed_xy nh) 0 = true /\
        ltb vmag_sq (min_speed_xy nh * min_speed_xy nh) = true /\
        geb (min_speed_theta nh) 0 = true /\
        ltb (fabs vtheta) (min_speed_theta nh) = true)
    \/ (eqb vmag_sq 0 = true /\ eqb vtheta 0 = true).
Proof.
  intros vmag_sq. rewrite isValidSpeed_returns. fold vmag_sq.
  destruct (geb (max_speed_xy nh) 0), (gtb vmag_sq _),
    (geb (min_speed_xy nh) 0), (ltb vmag_sq _), (geb (min_speed_theta nh) 0),
    (ltb (fabs vtheta) _), (eqb vmag_sq 0), (eqb vtheta 0); cbn;
    intuition congruence.
Qed.

(** The conditions on [hypot(vx,vy)] are not the code's.  With every
    threshold disabled the twist [(2^-600, 0, 0)] is rejected as the null
    command, since its square underflows to zero, though its magnitude is
    not zero; and with [max_speed_xy = 1] the twist [(1, 2^-30, 0)] is
    accepted, since [1 + 2^-60] rounds to [1], though its magnitude exceeds
    the maximum. *)
Lemma isValidSpeed_hypot_counterexample :
  (isValidSpeed
     (initialize (set_speed_thresholds getDefaultKinematicParameters
                    (-1) (-1) (-1)))
     0x1p-600 0 0 = false
   /\ ~ documented_invalid
         (set_speed_thresholds getDefaultKinematicParameters (-1) (-1) (-1))
         0x1p-600 0 0)
  /\ (isValidSpeed
        (initialize (set_speed_thresholds getDefaultKinematicParameters
                       1 (-1) (-1)))
        1 0x1p-30 0 = true
      /\ documented_invalid
           (set_speed_thresholds getDefaultKinematicParameters 1 (-1) (-1))
           1 0x1p-30 0).
Proof.
  split; split.
  - vm_compute. reflexivity.
  - unfold documented_invalid.
    cbn [set_speed_thresholds max_speed_xy min_speed_xy min_speed_theta].
    cbv zeta. intros [[H _]|[[H _]|[H _]]].
    + apply Qle_bool_iff in H. vm_compute in H. discriminate H.
    + apply Qle_bool_iff in H. vm_compute in H. discriminate H.
    + apply KinematicFacts.hypot_zero in H. vm_compute in H. discriminate H.
  - vm_compute. reflexivity.
  - unfold documented_invalid.
    cbn [set_speed_thresholds max_speed_xy min_speed_xy min_speed_theta].
    cbv zeta. left.
    assert (Hm : 0 <= value 1) by (vm_compute; discriminate).
    split; [exact Hm|].
    apply KinematicFacts.hypot_gt; [exact Hm|]. vm_compute. reflexivity.
Qed.

(** C10. With either minimum-speed threshold negative, [isValidSpeed]
    never rejects for slowness: it answers [false] exactly when the maximum
    combined magnitude is configured and its check fails, or the zero check
    fails, each as the code computes it. *)
Theorem min_speed_disabled nh vx vy vtheta :
  ltb (min_speed_xy nh) 0 = true \/ ltb (min_speed_theta nh) 0 = true ->
  let vmag_sq := (vx * vx + vy * vy)%float in
  isValidSpeed (initialize nh) vx vy vtheta = false <->
    (geb (max_speed_xy nh) 0 = true /\
     gtb vmag_sq (max_speed_xy nh * max_speed_xy nh) = true)
    \/ (eqb vmag_sq 0 = true /\ eqb vtheta 0 = true).
Proof.
  intros H vmag_sq. rewrite isValidSpeed_returns. fold vmag_sq.
  assert (Hslow : geb (min_speed_xy nh) 0
                  && ltb vmag_sq (min_speed_xy nh * min_speed_xy nh)
                  && geb (min_speed_theta nh) 0
                  && ltb (fabs vtheta) (min_speed_theta nh) = false).
  { destruct H as [H|H]; apply negative_fails_geb in H; rewrite H.
    - reflexivity.
    - now rewrite andb_false_r. }
  rewrite Hslow.
  destruct (geb (max_speed_xy nh) 0), (gtb vmag_sq _), (eqb vmag_sq 0),
    (eqb vtheta 0); cbn; intuition congruence.
Qed.

(** The example of C10: the parameters of the test [min_theta]
    ([min_speed_theta = -1], [min_speed_xy = 0.1]) accept the twist
    [(0.05, 0, 0)], which does not rotate and whose squared magnitude is
    below the square of [min_speed_xy]. *)
Lemma min_speed_disabled_witness :
  isValidSpeed
    (initialize (set_speed_thresholds getDefaultKinematicParameters
                   0x1.199999999999ap-1 0x1.999999999999ap-4 (-1)))
    0x1.999999999999ap-5 0 0 = true
  /\ ltb (0x1.999999999999ap-5 * 0x1.999999999999ap-5 + 0 * 0)
         (0x1.999999999999ap-4 * 0x1.999999999999ap-4) = true.
Proof.
  split; [|vm_compute; reflexivity].
  apply not_false_is_true. intros E.
  apply (min_speed_disabled
           (set_speed_thresholds getDefaultKinematicParameters
              0x1.199999999999ap-1 0x1.999999999999ap-4 (-1))
           0x1.999999999999ap-5 0 0) in E.
  - destruct E as [[_ E] | [E _]]; vm_compute in E; discriminate E.
  - right. vm_compute. reflexivity.
Defined.

(** X2. With [max_speed_xy] at zero, as it is when the node sets no
    parameter, [isValidSpeed] accepts a twist only if its squared magnitude,
    as computed, is not greater than zero, and then only if the rotation
    does not compare equal to zero.  The linear components need not be zero
    for that: squares that underflow pass, as for [(2^-600, 0, 1)]. *)
Theorem zero_max_speed_rotation_only nh vx vy vtheta :
  max_speed_xy nh = 0%float ->
  isValidSpeed (initialize nh) vx vy vtheta = true ->
  gtb (vx * vx + vy * vy) 0 = false
  /\ (eqb (vx * vx + vy * vy) 0 = true -> eqb vtheta 0 = false).
Proof.
  intros Hmax. rewrite isValidSpeed_returns, Hmax.
  change (geb 0 0) with true. change (0 * 0)%float with 0%float.
  destruct (gtb (vx * vx + vy * vy) 0); [discriminate|].
  destruct (geb (min_speed_xy nh) 0 && _ && _ && _); [discriminate|].
  destruct (eqb (vx * vx + vy * vy) 0), (eqb vtheta 0); cbn;
    intros H; split; congruence.
Qed.

Lemma zero_max_speed_rotation_only_witness :
  isValidSpeed (initialize declared_defaults) 0x1p-600 0 1 = true
  /\ gtb (0x1p-600 * 0x1p-600 + 0 * 0) 0 = false
  /\ (eqb (0x1p-600 * 0x1p-600 + 0 * 0) 0 = true -> eqb 1 0 = false).
Proof.
  split; [vm_compute; reflexivity|].
  apply (zero_max_speed_rotation_only declared_defaults 0x1p-600 0 1).
  - reflexivity.
  - vm_compute. reflexivity.
Defined.

End Binary64Facts.

(** ** Velocity sample space *)

Module SampleSpaceFacts.
Import VelocityIterator.

Lemma collect_all fuel it :
  (length it < fuel)%nat -> collect fuel it = it.
Proof.
  revert it. induction fuel as [|fuel IH]; intros it Hlen; [lia|].
  destruct it as [|v it]; cbn; [reflexivity|].
  f_equal. apply IH. cbn in Hlen. lia.
Qed.

Lemma getTwists_filter k s p v :
  getTwists k s p v = filter (isValidVelocity k) (sample_grid k s p v).
Proof. unfold getTwists. apply collect_all. unfold startNewIteration. lia. Qed.

(** C5. Every twist the sample space yields, under either policy and for
    every current velocity and configuration, satisfies [isValidSpeed]. *)
Theorem yielded_twists_valid k s p current_velocity tw :
  In tw (getTwists k s p current_velocity) ->
  KinematicParameters.isValidSpeed k (tw_x tw) (tw_y tw) (tw_theta tw) = true.
Proof.
  rewrite getTwists_filter. intros H. apply filter_In in H. apply H.
Qed.

Lemma yielded_twists_valid_witness :
  KinematicParameters.isValidSpeed
    (KinematicParameters.initialize getDefaultKinematicParameters)
    0 (-1 # 10) (-1) = true.
Proof.
  apply (yielded_twists_valid
           (KinematicParameters.initialize getDefaultKinematicParameters)
           {| vx_samples := 2; vy_samples := 2; vtheta_samples := 2 |}
           StaticLimits (mkTwist 0 0 0) (mkTwist 0 (-1 # 10) (-1))).
  vm_compute. left. reflexivity.
Defined.

(** What is skipped is exactly what [isValidSpeed] rejects. *)
Lemma yielded_iff k s p current_velocity tw :
  In tw (getTwists k s p current_velocity) <->
  In tw (sample_grid k s p current_velocity) /\ isValidVelocity k tw = true.
Proof. rewrite getTwists_filter. apply filter_In. Qed.

(** *** Counting *)

Lemma length_grid3 xs ys ts :
  length (grid3 xs ys ts) = (length xs * length ys * length ts)%nat.
Proof.
  unfold grid3. induction xs as [|x xs IH]; cbn; [reflexivity|].
  rewrite length_app, IH.
  assert (E : length (flat_map (fun y => map (fun t => mkTwist x y t) ts) ys)
              = (length ys * length ts)%nat).
  { clear. induction ys as [|y ys IH]; cbn; [reflexivity|].
    rewrite length_app, length_map, IH. reflexivity. }
  rewrite E. lia.
Qed.

Lemma sum_squares_zero x y : x * x + y * y == 0 <-> x == 0 /\ y == 0.
Proof.
  split.
  - intros H.
    assert (Hx : 0 <= x * x) by nra.
    assert (Hy : 0 <= y * y) by nra.
    assert (Ex : x * x == 0) by lra.
    assert (Ey : y * y == 0) by lra.
    apply Qmult_integral in Ex, Ey. tauto.
  - intros [Hx Hy]. rewrite Hx, Hy. reflexivity.
Qed.

Lemma null_command_zero x y theta :
  KinematicParameters.null_command x y theta
  = is_zero x && is_zero y && is_zero theta.
Proof.
  unfold KinematicParameters.null_command, is_zero.
  apply eq_true_iff_eq. autorewrite with qtest.
  rewrite sum_squares_zero. tauto.
Qed.

Lemma count_zero_cons a l :
  count_zero (a :: l) = ((if is_zero a then 1 else 0) + count_zero l)%nat.
Proof. unfold count_zero. cbn -[is_zero]. now destruct (is_zero a). Qed.

Lemma count_null_row x y ts :
  length (filter null_twist (map (fun t => mkTwist x y t) ts))
  = if is_zero x && is_zero y then count_zero ts else 0%nat.
Proof.
  induction ts as [|t ts IH].
  - cbn. now destruct (is_zero x && is_zero y).
  - rewrite count_zero_cons. cbn -[is_zero count_zero].
    unfold null_twist at 1. cbn -[is_zero count_zero].
    rewrite null_command_zero.
    destruct (is_zero x && is_zero y); cbn -[is_zero count_zero]; [|exact IH].
    destruct (is_zero t); cbn -[is_zero count_zero]; now rewrite IH.
Qed.

Lemma count_null_plane x ys ts :
  length (filter null_twist
            (flat_map (fun y => map (fun t => mkTwist x y t) ts) ys))
  = if is_zero x then (count_zero ys * count_zero ts)%nat else 0%nat.
Proof.
  induction ys as [|y ys IH].
  - cbn. now destruct (is_zero x).
  - rewrite count_zero_cons. cbn -[is_zero count_zero].
    rewrite filter_app, length_app, IH, count_null_row.
    destruct (is_zero x), (is_zero y); cbn -[count_zero]; lia.
Qed.

Lemma count_null_grid3 xs ys ts :
  length (filter null_twist (grid3 xs ys ts))
  = (count_zero xs * count_zero ys * count_zero ts)%nat.
Proof.
  unfold grid3. induction xs as [|x xs IH]; [reflexivity|].
  rewrite count_zero_cons. cbn -[is_zero count_zero].
  rewrite filter_app, length_app, IH, count_null_plane.
  destruct (is_zero x); cbn -[count_zero]; lia.
Qed.

Lemma length_filter_negb {A} (f : A -> bool) l :
  length (filter (fun a => negb (f a)) l) = (length l - length (filter f l))%nat.
Proof.
  pose proof (filter_length f l) as H. lia.
Qed.

Lemma length_grid_from_aux v inc n : length (grid_from v inc n) = n.
Proof. revert v. induction n as [|n IH]; intros v; cbn; [|rewrite IH]; reflexivity. Qed.

Lemma with_zero_grid_step v inc m :
  with_zero (grid_from v inc (S (S m)))
  = if Qltb v 0 && Qltb 0 (v + inc)
    then v :: 0 :: with_zero (grid_from (v + inc) inc (S m))
    else v :: with_zero (grid_from (v + inc) inc (S m)).
Proof. reflexivity. Qed.

(** A grid that starts above zero has no zero and gets none injected. *)
Lemma grid_positive v inc n :
  0 < v -> 0 < inc ->
  with_zero (grid_from v inc n) = grid_from v inc n /\
  count_zero (grid_from v inc n) = 0%nat /\
  existsb is_zero (grid_from v inc n) = false.
Proof.
  revert v. induction n as [|n IH]; intros v Hv Hinc; [now cbn|].
  assert (Hv' : 0 < v + inc) by lra.
  destruct (IH (v + inc) Hv' Hinc) as (Hw & Hc & He).
  assert (Hz : is_zero v = false).
  { apply not_true_is_false. unfold is_zero. rewrite Qeqb_iff. lra. }
  assert (Hn : Qltb v 0 = false).
  { apply not_true_is_false. rewrite Qltb_iff. lra. }
  repeat split.
  - cbn [grid_from with_zero]. destruct n as [|n]; [reflexivity|].
    cbn [grid_from] in *. rewrite Hn. cbn [andb]. now rewrite Hw.
  - cbn [grid_from]. rewrite count_zero_cons, Hz. exact Hc.
  - cbn [grid_from existsb]. now rewrite Hz, He.
Qed.

(** A rising grid from [v <= 0] whose last sample [v + m * inc] is not below
    zero holds zero exactly once after injection, and is one longer than the
    grid exactly when the grid itself misses zero. *)
Lemma grid_zero_once m : forall v inc,
  0 < inc -> v <= 0 -> 0 <= v + inject_Z (Z.of_nat m) * inc ->
  count_zero (with_zero (grid_from v inc (S m))) = 1%nat /\
  length (with_zero (grid_from v inc (S m)))
  = (S m + if existsb is_zero (grid_from v inc (S m)) then 0 else 1)%nat.
Proof.
  induction m as [|m IH]; intros v inc Hinc Hv Hlast.
  - change (inject_Z (Z.of_nat 0)) with 0 in Hlast.
    assert (E : v == 0) by lra.
    assert (Hz : is_zero v = true) by (now apply Qeqb_iff).
    cbn [grid_from with_zero existsb]. rewrite count_zero_cons, Hz.
    now cbn.
  - assert (Hlast' : 0 <= (v + inc) + inject_Z (Z.of_nat m) * inc).
    { rewrite Nat2Z.inj_succ in Hlast. unfold Z.succ in Hlast.
      rewrite inject_Z_plus in Hlast. change (inject_Z 1) with 1 in Hlast.
      generalize dependent (inject_Z (Z.of_nat m)). intros k _ Hlast. nra. }
    rewrite with_zero_grid_step.
    change (grid_from v inc (S (S m)))
      with (v :: grid_from (v + inc) inc (S m)).
    cbn [existsb].
    destruct (Qlt_le_dec 0 (v + inc)) as [Hpos|Hneg].
    + (* the rest of the grid is above zero *)
      destruct (grid_positive (v + inc) inc (S m) Hpos Hinc) as (Hw & Hc & He).
      rewrite He, Hw.
      destruct (Qlt_le_dec v 0) as [Hlt|Hge].
      * assert (Hz : is_zero v = false).
        { apply not_true_is_false. unfold is_zero. rewrite Qeqb_iff. lra. }
        assert (Hn : Qltb v 0 && Qltb 0 (v + inc) = true).
        { apply andb_true_iff. now rewrite !Qltb_iff. }
        rewrite Hn. cbv iota. rewrite Hz, !count_zero_cons, Hz, Hc.
        cbn [length orb]. rewrite length_grid_from_aux.
        split; [reflexivity | lia].
      * assert (Hz : is_zero v = true).
        { unfold is_zero. rewrite Qeqb_iff. lra. }
        assert (Hn : Qltb v 0 = false).
        { apply not_true_is_false. rewrite Qltb_iff. lra. }
        rewrite Hn. cbn [andb]. cbv iota.
        rewrite Hz, !count_zero_cons, Hz, Hc.
        cbn [length orb]. rewrite length_grid_from_aux.
        split; [reflexivity | lia].
    + (* the next sample is still not above zero *)
      assert (Hlt : v < 0) by lra.
      assert (Hz : is_zero v = false).
      { apply not_true_is_false. unfold is_zero. rewrite Qeqb_iff. lra. }
      assert (Hn : Qltb 0 (v + inc) = false).
      { apply not_true_is_false. rewrite Qltb_iff. lra. }
      destruct (IH (v + inc) inc Hinc Hneg Hlast') as [Hc Hl].
      rewrite Hn, andb_false_r. cbv iota.
      rewrite count_zero_cons, Hz, Hc.
      cbn [length orb]. rewrite Hl.
      split; [reflexivity | lia].
Qed.

Lemma axis_samples_zero_once lo hi n :
  lo <= 0 <= hi -> lo < hi -> (2 <= n)%nat ->
  count_zero (axis_samples (lo, hi) n) = 1%nat /\
  length (axis_samples (lo, hi) n) = axis_count lo hi n.
Proof.
  intros [Hlo Hhi] Hlt Hn. unfold axis_samples, axis_count, axis_grid. cbn [fst snd].
  destruct n as [|m]; [lia|].
  assert (Hm : 0 < inject_Z (Z.of_nat m)).
  { change 0 with (inject_Z 0). rewrite <- Zlt_Qlt. lia. }
  assert (Hd : inject_Z (Z.of_nat (S m)) - 1 == inject_Z (Z.of_nat m)).
  { rewrite Nat2Z.inj_succ. unfold Z.succ. rewrite inject_Z_plus.
    change (inject_Z 1) with 1. ring. }
  set (inc := (hi - lo) / (inject_Z (Z.of_nat (S m)) - 1)).
  assert (Hinc : inc * inject_Z (Z.of_nat m) == hi - lo).
  { unfold inc. rewrite Hd. field. lra. }
  assert (Hpos : 0 < inc).
  { destruct (Qlt_le_dec 0 inc) as [H|H]; [exact H|].
    assert (inc * inject_Z (Z.of_nat m) <= 0) by nra. lra. }
  apply grid_zero_once; [exact Hpos | exact Hlo | ].
  rewrite Qmult_comm, Hinc. lra.
Qed.

(** With every threshold negative only the null command is rejected. *)
Lemma isValidVelocity_no_thresholds nh v :
  KinematicParameters.max_speed_xy nh < 0 ->
  KinematicParameters.min_speed_xy nh < 0 ->
  isValidVelocity (KinematicParameters.initialize nh) v = negb (null_twist v).
Proof.
  intros Hmax Hmin. unfold isValidVelocity, null_twist.
  rewrite KinematicFacts.isValidSpeed_guards.
  rewrite KinematicFacts.too_fast_disabled by exact Hmax.
  rewrite KinematicFacts.too_slow_disabled by (left; exact Hmin).
  reflexivity.
Qed.

(** The count for static limits without thresholds. *)
Lemma static_count nh s current_velocity :
  KinematicParameters.max_speed_xy nh < 0 ->
  KinematicParameters.min_speed_xy nh < 0 ->
  KinematicParameters.min_speed_theta nh < 0 ->
  (2 <= vx_samples s)%nat -> (2 <= vy_samples s)%nat ->
  (2 <= vtheta_samples s)%nat ->
  KinematicParameters.min_vel_x nh <= 0 <= KinematicParameters.max_vel_x nh ->
  KinematicParameters.min_vel_x nh < KinematicParameters.max_vel_x nh ->
  KinematicParameters.min_vel_y nh <= 0 <= KinematicParameters.max_vel_y nh ->
  KinematicParameters.min_vel_y nh < KinematicParameters.max_vel_y nh ->
  0 < KinematicParameters.max_vel_theta nh ->
  twist_count nh s StaticLimits current_velocity
  = (axis_count (KinematicParameters.min_vel_x nh)
       (KinematicParameters.max_vel_x nh) (vx_samples s)
     * axis_count (KinematicParameters.min_vel_y nh)
         (KinematicParameters.max_vel_y nh) (vy_samples s)
     * axis_count (- KinematicParameters.max_vel_theta nh)
         (KinematicParameters.max_vel_theta nh) (vtheta_samples s)
     - 1)%nat.
Proof.
  intros Hmax Hmin _ Hsx Hsy Hst Hx Hx' Hy Hy' Ht.
  unfold twist_count. rewrite getTwists_filter.
  rewrite (filter_ext _ (fun v => negb (null_twist v)))
    by (intros v; now apply isValidVelocity_no_thresholds).
  rewrite length_filter_negb. unfold sample_grid.
  rewrite length_grid3, count_null_grid3.
  unfold samples_x, samples_y, samples_theta, axis_range.
  cbn [KinematicParameters.getMinX KinematicParameters.getMaxX
       KinematicParameters.getMinY KinematicParameters.getMaxY
       KinematicParameters.getMinTheta KinematicParameters.getMaxTheta
       KinematicParameters.initialize KinematicParameters.min_vel_x_
       KinematicParameters.max_vel_x_ KinematicParameters.min_vel_y_
       KinematicParameters.max_vel_y_ KinematicParameters.max_vel_theta_].
  destruct (axis_samples_zero_once _ _ _ Hx Hx' Hsx) as [-> ->].
  destruct (axis_samples_zero_once _ _ _ Hy Hy' Hsy) as [-> ->].
  assert (Ht1 : - KinematicParameters.max_vel_theta nh <= 0
                <= KinematicParameters.max_vel_theta nh) by (split; lra).
  assert (Ht2 : - KinematicParameters.max_vel_theta nh
                < KinematicParameters.max_vel_theta nh) by lra.
  change (KinematicParameters.getMinTheta (KinematicParameters.initialize nh))
    with (- KinematicParameters.max_vel_theta nh).
  destruct (axis_samples_zero_once _ _ _ Ht1 Ht2 Hst) as [-> ->].
  reflexivity.
Qed.


(** The count of the specification, [Sx * Sy * St + Sx * Sy - 1], is the
    case where the x and y grids hold zero and the theta grid steps over it. *)
Corollary static_count_zero_slice nh s current_velocity :
  KinematicParameters.max_speed_xy nh < 0 ->
  KinematicParameters.min_speed_xy nh < 0 ->
  KinematicParameters.min_speed_theta nh < 0 ->
  (2 <= vx_samples s)%nat -> (2 <= vy_samples s)%nat ->
  (2 <= vtheta_samples s)%nat ->
  KinematicParameters.min_vel_x nh <= 0 <= KinematicParameters.max_vel_x nh ->
  KinematicParameters.min_vel_x nh < KinematicParameters.max_vel_x nh ->
  KinematicParameters.min_vel_y nh <= 0 <= KinematicParameters.max_vel_y nh ->
  KinematicParameters.min_vel_y nh < KinematicParameters.max_vel_y nh ->
  0 < KinematicParameters.max_vel_theta nh ->
  existsb is_zero (axis_grid (KinematicParameters.min_vel_x nh)
                     (KinematicParameters.max_vel_x nh) (vx_samples s)) = true ->
  existsb is_zero (axis_grid (KinematicParameters.min_vel_y nh)
                     (KinematicParameters.max_vel_y nh) (vy_samples s)) = true ->
  existsb is_zero (axis_grid (- KinematicParameters.max_vel_theta nh)
                     (KinematicParameters.max_vel_theta nh) (vtheta_samples s))
  = false ->
  twist_count nh s StaticLimits current_velocity
  = (vx_samples s * vy_samples s * vtheta_samples s
     + vx_samples s * vy_samples s - 1)%nat.
Proof.
  intros Hmax Hmin Hth Hsx Hsy Hst Hx Hx' Hy Hy' Ht Ex Ey Et.
  rewrite static_count by assumption.
  unfold axis_count. rewrite Ex, Ey, Et. nia.
Qed.



(** *** The counts of the tests *)

Lemma isValidVelocity_Qeq k v v' :
  tw_x v == tw_x v' -> tw_y v == tw_y v' -> tw_theta v == tw_theta v' ->
  isValidVelocity k v = isValidVelocity k v'.
Proof.
  intros Hx Hy Ht.
  unfold isValidVelocity. rewrite !KinematicFacts.isValidSpeed_guards.
  unfold KinematicParameters.too_fast, KinematicParameters.too_slow,
    KinematicParameters.null_command, Qgeb, Qgtb, Qltb, Qeqb, fabs.
  rewrite Hx, Hy, Ht. reflexivity.
Qed.

Lemma count_valid_row k x x' y y' ts ts' :
  x == x' -> y == y' -> Forall2 Qeq ts ts' ->
  length (filter (isValidVelocity k) (map (fun t => mkTwist x y t) ts))
  = length (filter (isValidVelocity k) (map (fun t => mkTwist x' y' t) ts')).
Proof.
  intros Hx Hy Hts. induction Hts as [|t t' ts ts' Ht _ IH]; [reflexivity|].
  cbn [map filter].
  rewrite (isValidVelocity_Qeq k (mkTwist x y t) (mkTwist x' y' t'))
    by assumption.
  destruct (isValidVelocity k _); cbn [length]; now rewrite IH.
Qed.

Lemma count_valid_plane k x x' ys ys' ts ts' :
  x == x' -> Forall2 Qeq ys ys' -> Forall2 Qeq ts ts' ->
  length (filter (isValidVelocity k)
            (flat_map (fun y => map (fun t => mkTwist x y t) ts) ys))
  = length (filter (isValidVelocity k)
              (flat_map (fun y => map (fun t => mkTwist x' y t) ts') ys')).
Proof.
  intros Hx Hys Hts. induction Hys as [|y y' ys ys' Hy _ IH]; [reflexivity|].
  cbn [flat_map]. rewrite !filter_app, !length_app, IH.
  now rewrite (count_valid_row k x x' y y' ts ts').
Qed.

Lemma count_valid_Qeq k xs xs' ys ys' ts ts' :
  Forall2 Qeq xs xs' -> Forall2 Qeq ys ys' -> Forall2 Qeq ts ts' ->
  length (filter (isValidVelocity k) (grid3 xs ys ts))
  = length (filter (isValidVelocity k) (grid3 xs' ys' ts')).
Proof.
  intros Hxs Hys Hts. unfold grid3.
  induction Hxs as [|x x' xs xs' Hx _ IH]; [reflexivity|].
  cbn [flat_map]. rewrite !filter_app, !length_app, IH.
  now rewrite (count_valid_plane k x x' ys ys' ts ts').
Qed.

Lemma Forall2_Qred l : Forall2 Qeq l (map Qred l).
Proof.
  induction l as [|q l IH]; cbn; constructor; [|exact IH].
  symmetry. apply Qred_correct.
Qed.

Lemma twist_count_reduced_eq nh s p v :
  twist_count nh s p v = twist_count_reduced nh s p v.
Proof.
  unfold twist_count, twist_count_reduced. rewrite getTwists_filter.
  apply count_valid_Qeq; apply Forall2_Qred.
Qed.

(** The counts the tests of test/twist_gen.cpp expect. *)
Example test_standard_gen :
  twist_count getDefaultKinematicParameters default_samples StaticLimits zero
  = 1926%nat.
Proof. rewrite twist_count_reduced_eq. vm_compute. reflexivity. Qed.

Example test_max_xy :
  twist_count (set_speed_thresholds getDefaultKinematicParameters
                 1 (1 # 10) (4 # 10))
    default_samples StaticLimits zero = 2010%nat.
Proof. rewrite twist_count_reduced_eq. vm_compute. reflexivity. Qed.

Example test_min_xy :
  twist_count (set_speed_thresholds getDefaultKinematicParameters
                 (55 # 100) (-1) (4 # 10))
    default_samples StaticLimits zero = 2015%nat.
Proof. rewrite twist_count_reduced_eq. vm_compute. reflexivity. Qed.

Example test_min_theta :
  twist_count (set_speed_thresholds getDefaultKinematicParameters
                 (55 # 100) (1 # 10) (-1))
    default_samples StaticLimits zero = 2015%nat.
Proof. rewrite twist_count_reduced_eq. vm_compute. reflexivity. Qed.

Example test_no_limits :
  twist_count no_limits_params default_samples StaticLimits zero = 2099%nat.
Proof. rewrite twist_count_reduced_eq. vm_compute. reflexivity. Qed.

Example test_dwa_gen :
  twist_count (set_speed_thresholds getDefaultKinematicParameters
                 (55 # 100) (1 # 10) (-1))
    default_samples (DynamicWindow (5 # 100)) zero = 2099%nat.
Proof. rewrite twist_count_reduced_eq. vm_compute. reflexivity. Qed.

Example test_nonzero :
  twist_count (set_speed_thresholds getDefaultKinematicParameters
                 (55 # 100) (1 # 10) (-1))
    default_samples (DynamicWindow (5 # 100))
    (mkTwist (1 # 10) (-8 # 100) (5 # 100)) = 2519%nat.
Proof. rewrite twist_count_reduced_eq. vm_compute. reflexivity. Qed.

(** The limits the test [nonzero] expects of the dynamic window around
    [(0.1, -0.08, 0.05)]: x in [0, 0.225], y in [-0.1, 0.045], theta in
    [-0.11, 0.21]. *)
Example test_nonzero_limits :
  let k := KinematicParameters.initialize getDefaultKinematicParameters in
  let window lo hi acc decel current :=
    let r := axis_range (DynamicWindow (5 # 100)) current lo hi acc decel in
    (Qred (fst r), Qred (snd r)) in
  window (KinematicParameters.getMinX k) (KinematicParameters.getMaxX k)
         (KinematicParameters.getAccX k) (KinematicParameters.getDecelX k)
         (1 # 10) = (0, 9 # 40)
  /\ window (KinematicParameters.getMinY k) (KinematicParameters.getMaxY k)
         (KinematicParameters.getAccY k) (KinematicParameters.getDecelY k)
         (-8 # 100) = (-1 # 10, 9 # 200)
  /\ window (KinematicParameters.getMinTheta k) (KinematicParameters.getMaxTheta k)
         (KinematicParameters.getAccTheta k) (KinematicParameters.getDecelTheta k)
         (5 # 100) = (-11 # 100, 21 # 100).
Proof. vm_compute. repeat split. Qed.

End SampleSpaceFacts.

(** ** Trajectory generation *)

Module TrajectoryFacts.
Import StandardTrajectoryGenerator.

(** Within signed limits and a step that takes no negative time, the two
    branches of [projectVelocity] are the clip of the target into the
    reachable interval. *)
Lemma projectVelocity_clip v0 accel decel dt target :
  0 <= accel -> decel <= 0 -> 0 <= dt ->
  projectVelocity v0 accel decel dt target
  == clip_to_limits v0 accel decel dt target.
Proof.
  intros Ha Hd Hdt. unfold projectVelocity, clip_to_limits.
  assert (Hup : 0 <= accel * dt) by nra.
  assert (Hdown : decel * dt <= 0) by nra.
  destruct (Qltb v0 target) eqn:E.
  - apply Qltb_iff in E.
    destruct (Q.min_spec target (v0 + accel * dt)) as [[H1 ->]|[H1 ->]];
      [destruct (Q.max_spec (v0 + decel * dt) target) as [[H2 ->]|[H2 ->]]
      |destruct (Q.max_spec (v0 + decel * dt) (v0 + accel * dt))
         as [[H2 ->]|[H2 ->]]]; lra.
  - apply not_true_iff_false in E. rewrite Qltb_iff in E.
    destruct (Q.min_spec target (v0 + accel * dt)) as [[H1 ->]|[H1 ->]];
      [rewrite Q.max_comm; reflexivity|].
    destruct (Q.max_spec target (v0 + decel * dt)) as [[H2 ->]|[H2 ->]];
      [destruct (Q.max_spec (v0 + decel * dt) (v0 + accel * dt))
         as [[H3 ->]|[H3 ->]]
      |destruct (Q.max_spec (v0 + decel * dt) (v0 + accel * dt))
         as [[H3 ->]|[H3 ->]]]; lra.
Qed.

Lemma computeNewVelocity_clipped g cmd_vel prev dt :
  policy_ g = VelocityIterator.StaticLimits ->
  limits_signed (kinematics_ g) -> 0 <= dt ->
  clipped (kinematics_ g) cmd_vel prev dt (computeNewVelocity g cmd_vel prev dt).
Proof.
  intros Hstd (Hax & Hdx & Hay & Hdy & Hat & Hdt) Hstep.
  unfold clipped, computeNewVelocity. rewrite Hstd. cbn [tw_x tw_y tw_theta].
  repeat split; now apply projectVelocity_clip.
Qed.

Lemma achieved_clipped g cmd_vel steps : forall start_vel,
  policy_ g = VelocityIterator.StaticLimits ->
  limits_signed (kinematics_ g) -> Forall (fun dt => 0 <= dt) steps ->
  each_step_clipped (kinematics_ g) cmd_vel start_vel steps
    (achieved g cmd_vel start_vel steps).
Proof.
  induction steps as [|dt steps IH]; intros start_vel Hstd Hk Hsteps;
    cbn [achieved each_step_clipped]; [exact I|].
  inversion Hsteps; subst. split.
  - now apply computeNewVelocity_clipped.
  - now apply IH.
Qed.

(** The derived generator does not clip: every velocity it achieves is the
    command. *)
Lemma achieved_unclipped g cmd_vel sim_period steps : forall start_vel,
  policy_ g = VelocityIterator.DynamicWindow sim_period ->
  achieved g cmd_vel start_vel steps = repeat cmd_vel (length steps).
Proof.
  induction steps as [|dt steps IH]; intros start_vel Hdwa;
    cbn [achieved length repeat]; [reflexivity|].
  unfold computeNewVelocity. rewrite Hdwa. f_equal. now apply IH.
Qed.

Lemma getTimeSteps_count g cmd_vel :
  (1 <= length (getTimeSteps g cmd_vel))%nat.
Proof. unfold getTimeSteps. rewrite repeat_length. lia. Qed.

Lemma getTimeSteps_nonneg g cmd_vel :
  0 <= sim_time_ g -> Forall (fun dt => 0 <= dt) (getTimeSteps g cmd_vel).
Proof.
  intros Ht. unfold getTimeSteps.
  set (n := Z.to_nat _).
  assert (Hn : 0 < inject_Z (Z.of_nat n)).
  { change 0 with (inject_Z 0). rewrite <- Zlt_Qlt. subst n. lia. }
  apply Forall_forall. intros dt Hin. apply repeat_spec in Hin. subst dt.
  apply Qle_shift_div_l; [exact Hn | lra].
Qed.

Section Integration.
Context {libm : Libm}.

(** The poses of a trajectory are the start pose and then the integration
    of the achieved velocities. *)
Lemma simulate_achieved g cmd_vel steps : forall pose vel,
  simulate g cmd_vel pose vel steps
  = integrate pose (achieved g cmd_vel vel steps) steps.
Proof.
  induction steps as [|dt steps IH]; intros pose vel; cbn; [reflexivity|].
  now rewrite IH.
Qed.

(** C4. In a trajectory of the standard generator the poses integrate a
    sequence of achieved velocities in which, at every step and on every
    axis, the velocity is the commanded component clipped to within the
    acceleration limit above and the deceleration limit below the velocity
    of the step before, each times the duration of the step. *)
Theorem achieved_velocity_clipped g start_pose start_vel cmd_vel :
  policy_ g = VelocityIterator.StaticLimits ->
  limits_signed (kinematics_ g) -> 0 <= sim_time_ g ->
  let steps := getTimeSteps g cmd_vel in
  let vs := achieved g cmd_vel start_vel steps in
  poses (fst (generateTrajectory g start_pose start_vel cmd_vel))
  = start_pose :: integrate start_pose vs steps
  /\ each_step_clipped (kinematics_ g) cmd_vel start_vel steps vs.
Proof.
  intros Hstd Hk Ht steps vs. split.
  - cbn [generateTrajectory fst poses]. now rewrite simulate_achieved.
  - apply achieved_clipped; [exact Hstd | exact Hk |].
    now apply getTimeSteps_nonneg.
Qed.

End Integration.

(** The example of C4 (test [accel]): from rest, [acc_lim_x = 0.1],
    one-second steps, target [vx = 0.3]: the achieved [vx] is
    0.1, 0.2, 0.3, 0.3, 0.3. *)
Lemma achieved_velocity_clipped_witness :
  each_step_clipped (kinematics_ accel_generator) forward zero
    (getTimeSteps accel_generator forward)
    (achieved accel_generator forward zero (getTimeSteps accel_generator forward))
  /\ map (fun v => Qred (tw_x v))
       (achieved accel_generator forward zero (getTimeSteps accel_generator forward))
     = [1 # 10; 1 # 5; 3 # 10; 3 # 10; 3 # 10].
Proof.
  split.
  - apply (@achieved_velocity_clipped libm_heading_zero accel_generator
             origin zero forward).
    + reflexivity.
    + repeat split; vm_compute; discriminate.
    + vm_compute; discriminate.
  - vm_compute. reflexivity.
Defined.

(** The trajectories of the tests [basic], [too_slow] and [accel], in lowest
    terms: 0.255 is 51/200, 0.6 is 3/5. *)
Example test_basic :
  map (fun p => (Qred (p_x p), Qred (p_y p), Qred (p_theta p)))
      (poses (fst (@generateTrajectory libm_heading_zero
                     (initialize getDefaultKinematicParameters)
                     origin forward forward)))
  = [(0, 0, 0); (51 # 200, 0, 0); (51 # 100, 0, 0)].
Proof. vm_compute. reflexivity. Qed.

Example test_too_slow :
  length (poses (fst (@generateTrajectory libm_heading_zero
                        (initialize getDefaultKinematicParameters)
                        origin (mkTwist (2 # 10) 0 0) (mkTwist (2 # 10) 0 0))))
  = 2%nat.
Proof. vm_compute. reflexivity. Qed.

Example test_accel :
  map (fun p => (Qred (p_x p), Qred (p_y p), Qred (p_theta p)))
      (poses (fst (@generateTrajectory libm_heading_zero accel_generator
                     origin zero forward)))
  = [(0, 0, 0); (1 # 10, 0, 0); (3 # 10, 0, 0); (3 # 5, 0, 0);
     (9 # 10, 0, 0); (6 # 5, 0, 0)].
Proof. vm_compute. reflexivity. Qed.

(** The test [dwa]: the same parameters in the derived generator, which
    moves at the commanded 0.3 from the first step on. *)
Example test_dwa :
  map (fun p => (Qred (p_x p), Qred (p_y p), Qred (p_theta p)))
      (poses (fst (@generateTrajectory libm_heading_zero dwa_generator
                     origin zero forward)))
  = [(0, 0, 0); (3 # 10, 0, 0); (3 # 5, 0, 0); (9 # 10, 0, 0);
     (6 # 5, 0, 0); (3 # 2, 0, 0)].
Proof. vm_compute. reflexivity. Qed.

End TrajectoryFacts.

(** ** Critic pipeline and scoring *)

Module ScoringFacts.
Import DWBLocalPlanner.

(** The loop keeps the trajectory of the score it was given. *)
Lemma scoreCritics_traj critics tr bs : forall sc r,
  scoreCritics critics tr bs sc = Scored r -> traj r = traj sc.
Proof.
  induction critics as [|c critics IH]; intros sc r H; cbn in H.
  - now inversion H.
  - destruct (Qeqb (getScale c) 0).
    + apply IH in H. exact H.
    + destruct (critic_scoreTrajectory c tr) as [q|n m]; [|discriminate].
      destruct (Qgtb bs 0 && _).
      * now inversion H.
      * apply IH in H. exact H.
Qed.

(** A threshold that is not positive never cuts the loop short. *)
Lemma scoreCritics_no_threshold critics tr bs bs' : forall sc,
  Qgtb bs 0 = false -> Qgtb bs' 0 = false ->
  scoreCritics critics tr bs sc = scoreCritics critics tr bs' sc.
Proof.
  intros sc H H'. revert sc.
  induction critics as [|c critics IH]; intros sc; cbn; [reflexivity|].
  destruct (Qeqb (getScale c) 0); [apply IH|].
  destruct (critic_scoreTrajectory c tr) as [q|n m]; [|reflexivity].
  rewrite H, H'. cbn. apply IH.
Qed.


Lemma no_threshold : Qgtb (-1) 0 = false.
Proof. reflexivity. Qed.

(** Scored in full, the total only grows. *)
Lemma scoreCritics_full_grows critics tr :
  raw_scores_nonneg critics -> scales_nonneg critics ->
  forall sc f, scoreCritics critics tr (-1) sc = Scored f -> total sc <= total f.
Proof.
  induction critics as [|c critics IH]; intros Hraw Hscale sc f H; cbn in H.
  - inversion H. lra.
  - inversion Hraw as [|? ? Hc Hraw']; subst.
    inversion Hscale as [|? ? Hs Hscale']; subst.
    specialize (IH Hraw' Hscale').
    destruct (Qeqb (getScale c) 0).
    + apply IH in H. exact H.
    + destruct (critic_scoreTrajectory c tr) as [q|n m] eqn:E; [|discriminate].
      apply IH in H. cbn in H. specialize (Hc tr q E). nra.
Qed.

Lemma scoreCritics_early critics tr bs :
  raw_scores_nonneg critics -> scales_nonneg critics ->
  forall sc,
    scoreCritics critics tr bs sc = scoreCritics critics tr (-1) sc \/
    cut_short bs (scoreCritics critics tr bs sc)
                 (scoreCritics critics tr (-1) sc).
Proof.
  induction critics as [|c critics IH]; intros Hraw Hscale sc; cbn.
  - now left.
  - inversion Hraw as [|? ? Hc Hraw']; subst.
    inversion Hscale as [|? ? Hs Hscale']; subst.
    specialize (IH Hraw' Hscale').
    destruct (Qeqb (getScale c) 0); [apply IH|].
    destruct (critic_scoreTrajectory c tr) as [q|n m] eqn:E; [|now left].
    cbn [andb]. change (Qgtb (-1) 0) with false. cbn [andb].
    destruct (Qgtb bs 0 && _) eqn:Hcut; [|apply IH].
    right. eexists. split; [reflexivity|].
    apply andb_true_iff in Hcut. destruct Hcut as [_ Hcut].
    apply Qgtb_iff in Hcut. split; [exact Hcut|].
    match goal with |- match ?s with _ => _ end =>
      destruct s as [f|] eqn:Ef; [|exact I] end.
    apply (scoreCritics_full_grows _ _ Hraw' Hscale') in Ef. exact Ef.
Qed.

(** One turn of the loop keeps the best score of the two searches equal. *)
Lemma core_step_best critics tr st st' :
  raw_scores_nonneg critics -> scales_nonneg critics ->
  best st = best st' ->
  best (core_step critics (total (best st)) st tr)
  = best (core_step critics (-1) st' tr).
Proof.
  intros Hraw Hscale Hb. unfold core_step, scoreTrajectory.
  destruct (Qgtb (total (best st)) 0) eqn:Hpos.
  - destruct (scoreCritics_early critics tr (total (best st)) Hraw Hscale
                {| traj := tr; scores := []; total := 0 |}) as [E|(p & E & Hp & Hf)].
    + rewrite E. destruct (scoreCritics critics tr (-1) _); cbn;
        now rewrite Hb.
    + rewrite E. cbn [best].
      apply Qgtb_iff in Hpos.
      assert (N1 : Qltb (total (best st)) 0 = false).
      { apply not_true_is_false. rewrite Qltb_iff. lra. }
      assert (N2 : Qltb (total p) (total (best st)) = false).
      { apply not_true_is_false. rewrite Qltb_iff. lra. }
      rewrite N1, N2. cbn [orb].
      destruct (scoreCritics critics tr (-1) _) as [f|]; cbn [best]; [|exact Hb].
      rewrite <- Hb, N1.
      assert (N3 : Qltb (total f) (total (best st)) = false).
      { apply not_true_is_false. rewrite Qltb_iff. lra. }
      rewrite N3. cbn [orb]. reflexivity.
  - rewrite (scoreCritics_no_threshold critics tr (total (best st)) (-1))
      by (exact Hpos || reflexivity).
    destruct (scoreCritics critics tr (-1) _); cbn; now rewrite Hb.
Qed.

Lemma core_loop_best critics trajs : forall st st',
  raw_scores_nonneg critics -> scales_nonneg critics ->
  best st = best st' ->
  best (core_loop true critics st trajs) = best (core_loop false critics st' trajs).
Proof.
  induction trajs as [|tr trajs IH]; intros st st' Hraw Hscale Hb; cbn.
  - exact Hb.
  - apply IH; try assumption. now apply core_step_best.
Qed.

Lemma core_loop_full_best critics trajs : forall st,
  (total (best st) < 0 \/ fully_scored critics (best st)) ->
  raw_scores_nonneg critics -> scales_nonneg critics ->
  total (best (core_loop false critics st trajs)) < 0 \/
  fully_scored critics (best (core_loop false critics st trajs)).
Proof.
  induction trajs as [|tr trajs IH]; intros st Hst Hraw Hscale; cbn.
  - exact Hst.
  - apply IH; try assumption.
    unfold core_step. destruct (scoreTrajectory critics tr (-1)) as [f|] eqn:E;
      cbn [best]; [|exact Hst].
    destruct (Qltb (total (best st)) 0 || _); [|exact Hst].
    right. unfold fully_scored.
    assert (Ht : traj f = tr).
    { unfold scoreTrajectory in E. now apply scoreCritics_traj in E. }
    rewrite Ht. exact E.
Qed.

Section EarlyExit.
Context {traj_generator_ : TrajectoryGenerator}.

(** C3, as the code has it.  When every critic's raw score and every
    critic's weight are non-negative, the search with early exit selects the
    same best trajectory, with the same score, as the search that scores
    every trajectory in full; and the score selected is a full score, never
    one that was cut short. *)
Theorem early_exit_sound critics pose velocity results :
  raw_scores_nonneg critics -> scales_nonneg critics ->
  selected (coreScoringAlgorithm critics pose velocity results)
  = selected (coreScoringAlgorithm_full critics pose velocity results)
  /\ forall b,
       selected (coreScoringAlgorithm critics pose velocity results) = Some b ->
       fully_scored critics b.
Proof.
  intros Hraw Hscale.
  unfold coreScoringAlgorithm, coreScoringAlgorithm_full, core_finish.
  pose proof (core_loop_best critics (candidates pose velocity)
                (core_init results) (core_init results) Hraw Hscale eq_refl) as Hb.
  pose proof (core_loop_full_best critics (candidates pose velocity)
                (core_init results)) as Hf.
  rewrite Hb. split.
  - destruct (Qltb _ 0); reflexivity.
  - intros b. destruct (Qltb _ 0) eqn:Hneg; cbn; [discriminate|].
    intros Hsel. inversion Hsel; subst b.
    destruct Hf as [Hf|Hf]; try assumption.
    + left. cbn. lra.
    + apply not_true_iff_false in Hneg. rewrite Qltb_iff in Hneg. contradiction.
Qed.

End EarlyExit.

Lemma fixture_raw_scores_nonneg a b :
  raw_scores_nonneg [speed_critic a; strafe_critic b].
Proof.
  repeat constructor; intros tr q H; inversion H; apply Qabs_nonneg.
Qed.

Lemma early_exit_sound_witness :
  selected (@coreScoringAlgorithm two_twists
              [speed_critic 1; strafe_critic (1 # 2)] origin zero None)
  = selected (@coreScoringAlgorithm_full two_twists
              [speed_critic 1; strafe_critic (1 # 2)] origin zero None).
Proof.
  apply (@early_exit_sound two_twists
           [speed_critic 1; strafe_critic (1 # 2)] origin zero None).
  - apply fixture_raw_scores_nonneg.
  - repeat constructor; cbn; lra.
Defined.

(** Raw scores that are never negative do not make early exit sound when a
    weight is negative: with weights [1] and [-1] the second trajectory is
    cut short at total [2 > 1], though its full total is [1/2], the best. *)
Lemma early_exit_counterexample :
  raw_scores_nonneg [speed_critic 1; strafe_critic (-1)] /\
  selected (@coreScoringAlgorithm two_twists
              [speed_critic 1; strafe_critic (-1)] origin zero None)
  <> selected (@coreScoringAlgorithm_full two_twists
              [speed_critic 1; strafe_critic (-1)] origin zero None).
Proof.
  split; [apply fixture_raw_scores_nonneg|].
  vm_compute. intros H. discriminate H.
Qed.

End ScoringFacts.

(** ** The window on the global plan *)

Module PlanWindowFacts.
Import DWBLocalPlanner.

(** [find_if] splits the vector: what it steps over fails the predicate,
    and where it stops, if it stops, the predicate holds. *)
Lemma find_if_split {A} (pred : A -> bool) l :
  exists skipped,
    l = skipped ++ find_if pred l /\
    Forall (fun a => pred a = false) skipped /\
    match find_if pred l with
    | [] => True
    | a :: _ => pred a = true
    end.
Proof.
  induction l as [|a l (skipped & Hl & Hs & Hf)]; cbn.
  - exists []. repeat split; constructor.
  - destruct (pred a) eqn:E.
    + exists []. repeat split; [constructor | exact E].
    + exists (a :: skipped). repeat split.
      * cbn. now f_equal.
      * now constructor.
      * exact Hf.
Qed.

(** The range from a position to a later one found by [find_if] is what
    [find_if] stepped over. *)
Lemma range_find_if {A} (pred : A -> bool) (first : list A) :
  first = range first (find_if pred first) ++ find_if pred first /\
  Forall (fun a => pred a = false) (range first (find_if pred first)).
Proof.
  destruct (find_if_split pred first) as (skipped & Hl & Hs & _).
  assert (E : range first (find_if pred first) = skipped).
  { unfold range. rewrite Hl at 1 3. rewrite length_app.
    replace (length skipped + length (find_if pred first)
             - length (find_if pred first))%nat with (length skipped) by lia.
    rewrite firstn_app, firstn_all, Nat.sub_diag. cbn. apply app_nil_r. }
  rewrite E. now split.
Qed.

Section Window.
Variable env : Collaborators.

(** The stored plan after a call. *)
Lemma transformGlobalPlan_plan pl pose :
  global_plan_ (fst (transformGlobalPlan env pl pose))
  = match global_plan_ pl, robot_in_plan_frame env pose with
    | _ :: _, Some robot_pose =>
        if prune_plan_ pl then transformation_begin env pl robot_pose
        else global_plan_ pl
    | _, _ => global_plan_ pl
    end.
Proof.
  unfold transformGlobalPlan.
  destruct (global_plan_ pl) as [|g gs] eqn:Eg; [cbn; congruence|].
  destruct (robot_in_plan_frame env pose) as [robot_pose|]; [|cbn; congruence].
  destruct (prune_plan_ pl), (map _ _); cbn; congruence.
Qed.

(** The stored plan after a call is what the call left of the plan before:
    a final part of it. *)
Lemma transformGlobalPlan_suffix pl pose :
  exists pruned,
    global_plan_ pl
    = pruned ++ global_plan_ (fst (transformGlobalPlan env pl pose)).
Proof.
  rewrite transformGlobalPlan_plan.
  destruct (global_plan_ pl) as [|g gs] eqn:Eg; [now exists []|].
  destruct (robot_in_plan_frame env pose) as [robot_pose|]; [|now exists []].
  destruct (prune_plan_ pl); [|now exists []].
  destruct (find_if_split
              (fun global_plan_pose =>
                 Qltb (getSquareDistance robot_pose global_plan_pose)
                      (sq_transform_start_threshold env pl))
              (global_plan_ pl)) as (skipped & Hl & _).
  exists skipped. rewrite <- Eg. exact Hl.
Qed.

(** Over any run of cycles, too. *)
Lemma cycles_suffix robot_poses : forall pl,
  exists pruned,
    global_plan_ pl = pruned ++ global_plan_ (fst (cycles env pl robot_poses)).
Proof.
  induction robot_poses as [|pose rest IH]; intros pl; cbn.
  - now exists [].
  - destruct (transformGlobalPlan_suffix pl pose) as (p1 & H1).
    destruct (transformGlobalPlan env pl pose) as [pl1 r]. cbn in H1.
    destruct (IH pl1) as (p2 & H2).
    destruct (cycles env pl1 rest) as [pl2 rs]. cbn in *.
    exists (p1 ++ p2). rewrite <- app_assoc, <- H2. exact H1.
Qed.

(** A transformed plan is the image of a stretch of the stored plan. *)
Lemma transformGlobalPlan_window pl pose tp :
  snd (transformGlobalPlan env pl pose) = TransformedPlan tp ->
  exists before w after,
    global_plan_ pl = before ++ w ++ after /\
    tp = map (plan_pose_to_local env) w.
Proof.
  unfold transformGlobalPlan.
  destruct (global_plan_ pl) as [|g gs] eqn:Eg; [discriminate|].
  destruct (robot_in_plan_frame env pose) as [robot_pose|]; [|discriminate].
  destruct (map (plan_pose_to_local env) (window env pl robot_pose))
    as [|t ts] eqn:Em; [discriminate|].
  cbn. intros H. inversion H; subst tp. clear H.
  destruct (find_if_split
              (fun global_plan_pose =>
                 Qltb (getSquareDistance robot_pose global_plan_pose)
                      (sq_transform_start_threshold env pl))
              (global_plan_ pl)) as (skipped & Hl & _).
  fold (transformation_begin env pl robot_pose) in Hl.
  destruct (range_find_if
              (fun global_plan_pose =>
                 Qgtb (getSquareDistance robot_pose global_plan_pose)
                      (sq_transform_end_threshold env pl))
              (transformation_begin env pl robot_pose)) as [Hr _].
  fold (transformation_end env pl robot_pose) in Hr.
  fold (window env pl robot_pose) in Hr.
  exists skipped, (window env pl robot_pose), (transformation_end env pl robot_pose).
  split; [|now rewrite Em].
  rewrite <- Eg, <- Hr. exact Hl.
Qed.

(** C7. With pruning enabled, a call of [transformGlobalPlan] only drops a
    front part of the stored plan: the poses before the first pose that is
    nearer to the robot than the threshold, all of them not nearer than it,
    and every pose when none is nearer.  What is kept starts with that
    first near pose and with the window of the call; and whatever the robot
    pose of the next call, its transformed plan is the image of a stretch
    of the stored plan that lies wholly after the dropped part. *)
Theorem pruning_monotone pl pose next_pose :
  prune_plan_ pl = true ->
  exists pruned,
    global_plan_ pl
    = pruned ++ global_plan_ (fst (transformGlobalPlan env pl pose))
    /\ (forall robot_pose,
          robot_in_plan_frame env pose = Some robot_pose ->
          Forall (fun g => ~ getSquareDistance robot_pose g
                             < sq_transform_start_threshold env pl) pruned
          /\ match global_plan_ (fst (transformGlobalPlan env pl pose)) with
             | [] => True
             | g :: _ => getSquareDistance robot_pose g
                         < sq_transform_start_threshold env pl
             end
          /\ exists rest,
               global_plan_ (fst (transformGlobalPlan env pl pose))
               = window env pl robot_pose ++ rest)
    /\ (forall tp,
          snd (transformGlobalPlan env
                 (fst (transformGlobalPlan env pl pose)) next_pose)
          = TransformedPlan tp ->
          exists before w after,
            global_plan_ pl = pruned ++ before ++ w ++ after /\
            tp = map (plan_pose_to_local env) w).
Proof.
  intros Hprune.
  assert (Hkey : exists pruned,
    global_plan_ pl
    = pruned ++ global_plan_ (fst (transformGlobalPlan env pl pose))
    /\ (forall robot_pose,
          robot_in_plan_frame env pose = Some robot_pose ->
          Forall (fun g => ~ getSquareDistance robot_pose g
                             < sq_transform_start_threshold env pl) pruned
          /\ match global_plan_ (fst (transformGlobalPlan env pl pose)) with
             | [] => True
             | g :: _ => getSquareDistance robot_pose g
                         < sq_transform_start_threshold env pl
             end
          /\ exists rest,
               global_plan_ (fst (transformGlobalPlan env pl pose))
               = window env pl robot_pose ++ rest)).
  { rewrite transformGlobalPlan_plan, Hprune.
    destruct (global_plan_ pl) as [|g gs] eqn:Eg.
    - exists []. split; [reflexivity|]. intros robot_pose _.
      split; [constructor|]. split; [exact I|]. exists [].
      unfold window, transformation_end, transformation_begin. now rewrite Eg.
    - destruct (robot_in_plan_frame env pose) as [robot_pose|] eqn:Er.
      + destruct (find_if_split
                    (fun global_plan_pose =>
                       Qltb (getSquareDistance robot_pose global_plan_pose)
                            (sq_transform_start_threshold env pl))
                    (global_plan_ pl)) as (skipped & Hl & Hs & Hhead).
        fold (transformation_begin env pl robot_pose) in Hl, Hhead.
        exists skipped. rewrite <- Eg. split; [exact Hl|].
        intros r Hr. inversion Hr; subst r. split; [|split].
        * eapply Forall_impl; [|exact Hs]. cbn. intros a Ha Hlt.
          apply Qltb_iff in Hlt. congruence.
        * destruct (transformation_begin env pl robot_pose); [exact I|].
          now apply Qltb_iff.
        * destruct (range_find_if
                      (fun global_plan_pose =>
                         Qgtb (getSquareDistance robot_pose global_plan_pose)
                              (sq_transform_end_threshold env pl))
                      (transformation_begin env pl robot_pose)) as [Hrange _].
          eexists. exact Hrange.
      + exists []. split; [reflexivity|]. intros r Hr. discriminate Hr. }
  destruct Hkey as (pruned & H1 & H2).
  exists pruned. split; [exact H1|]. split; [exact H2|].
  intros tp Htp. apply transformGlobalPlan_window in Htp.
  destruct Htp as (before & w & after & Hplan & Htp).
  exists before, w, after. split; [|exact Htp].
  rewrite H1 at 1. now rewrite Hplan.
Qed.

End Window.

Lemma pruning_monotone_witness :
  exists pruned,
    global_plan_ straight_plan
    = pruned ++ global_plan_
                  (fst (transformGlobalPlan square_costmap straight_plan origin)).
Proof.
  destruct (pruning_monotone square_costmap straight_plan origin origin eq_refl)
    as (pruned & H & _).
  exists pruned. exact H.
Defined.

(** Pruning does remove poses ahead of the robot: distance decides, not
    progress along the plan.  On the plan that leads away and back, the
    robot at the origin, facing along the x axis, has not reached the poses
    two and three metres in front of it; the first pose nearer than the
    threshold of one metre comes after them, so the call removes both.
    And a robot that is farther than the threshold from every pose, here
    two metres beside the plan along the x axis, loses the whole plan, the
    goal in front of it included. *)
Lemma pruning_removes_poses_ahead :
  (prune_plan_ detour_plan = true
   /\ In (mkPose 2 0 0) (global_plan_ detour_plan)
   /\ p_x origin < p_x (mkPose 2 0 0)
   /\ global_plan_
        (fst (transformGlobalPlan square_costmap detour_plan origin))
      = [mkPose (1 # 2) 0 0; mkPose (1 # 2) 3 0])
  /\ (prune_plan_ straight_plan = true
      /\ In (mkPose 5 0 0) (global_plan_ straight_plan)
      /\ p_x (mkPose 0 2 0) < p_x (mkPose 5 0 0)
      /\ global_plan_
           (fst (transformGlobalPlan square_costmap straight_plan
                   (mkPose 0 2 0)))
         = []).
Proof.
  split.
  - split; [reflexivity|]. split; [cbn; tauto|]. split; reflexivity.
  - split; [reflexivity|]. split; [cbn; tauto|]. split; reflexivity.
Qed.

(** With the robot at the origin the pose behind it is dropped and the two
    poses within a metre make the window. *)
Example prune_straight_plan :
  transformGlobalPlan square_costmap straight_plan origin
  = (set_global_plan straight_plan
       [mkPose 0 0 0; mkPose (1 # 2) 0 0; mkPose 5 0 0],
     TransformedPlan [mkPose 0 0 0; mkPose (1 # 2) 0 0]).
Proof. vm_compute. reflexivity. Qed.

(** A robot farther than the threshold from every pose of the plan: no pose
    is found, the whole plan is erased before the call throws. *)
Example prune_far_robot :
  transformGlobalPlan square_costmap straight_plan (mkPose 100 0 0)
  = (set_global_plan straight_plan [],
     PlannerException "Resulting plan has 0 poses in it.").
Proof. vm_compute. reflexivity. Qed.

End PlanWindowFacts.

(** ** Goal checking *)

Module GoalCheckerFacts.
Import SimpleGoalChecker.
#[local] Open Scope R_scope.

Lemma Rleb_iff a b : Rleb a b = true <-> a <= b.
Proof. unfold Rleb. destruct (Rle_dec a b); split; intros; congruence || assumption. Qed.

(** Whole turns do not matter: the angle with [k] turns taken off is the
    normal form as soon as it lies in [[-PI, PI)]. *)
Lemma normalize_angle_spec a k :
  - PI <= a - 2 * PI * IZR k < PI -> normalize_angle a = a - 2 * PI * IZR k.
Proof.
  intros [H1 H2]. unfold normalize_angle.
  pose proof PI_RGT_0 as Hpi.
  assert (E : k = Int_part ((a + PI) / (2 * PI))).
  { apply Int_part_spec. split.
    - apply Rmult_lt_reg_r with (2 * PI); [lra|].
      unfold Rdiv, Rminus. rewrite Rmult_plus_distr_r, Rmult_assoc.
      rewrite Rinv_l by lra. lra.
    - apply Rmult_le_reg_r with (2 * PI); [lra|].
      unfold Rdiv. rewrite (Rmult_assoc (a + PI)), Rinv_l by lra. lra. }
  now rewrite <- E.
Qed.


Lemma PI_bounds : 3141 / 1000 < PI < 3142 / 1000.
Proof.
  pose proof (PI_2_3_7_ineq 3) as [H1 H2].
  unfold sum_f_R0, tg_alt, PI_2_3_7_tg, Ratan_seq in H1, H2.
  simpl in H1, H2.
  split; lra.
Qed.

(** Headings [PI] and [-PI] are no distance apart. *)
Lemma half_turns_meet : shortest_angular_distance PI (- PI) = 0.
Proof.
  unfold shortest_angular_distance.
  rewrite (normalize_angle_spec _ (-1)); pose proof PI_RGT_0; lra.
Qed.

Lemma distance_same_position x0 y0 t0 t1 :
  distance (pose x0 y0 t0) (pose x0 y0 t1) = 0.
Proof.
  unfold distance, pose. cbn [x y theta].
  replace ((x0 - x0) * (x0 - x0) + (y0 - y0) * (y0 - y0)) with 0 by ring.
  apply sqrt_0.
Qed.

(** The answer for two poses whose headings differ, whole turns apart, by
    an angle in [[-PI, PI)]. *)
Lemma isGoalReached_at gc query_pose goal_pose velocity k :
  - PI <= theta goal_pose - theta query_pose - 2 * PI * IZR k < PI ->
  isGoalReached gc query_pose goal_pose velocity = true <->
  sqrt ((x query_pose - x goal_pose) * (x query_pose - x goal_pose)
        + (y query_pose - y goal_pose) * (y query_pose - y goal_pose))
    <= xy_goal_tolerance_ gc
  /\ Rabs (theta goal_pose - theta query_pose - 2 * PI * IZR k)
     <= yaw_goal_tolerance_ gc.
Proof.
  intros Hk. unfold isGoalReached, shortest_angular_distance, distance.
  rewrite andb_true_iff, !Rleb_iff.
  now rewrite (normalize_angle_spec _ k Hk).
Qed.


(** The expectations of the test [two_checks] for the proximity checker
    (its tolerances are set in the file that is missing) say of the
    tolerances exactly this: the position tolerance is in [[0, 1)] and the
    heading tolerance in [[2 PI - 6.28, 1)]. *)
Example test_two_checks gc :
  (isGoalReached gc (pose 0 0 0) (pose 0 0 0) stopped = true /\
   isGoalReached gc (pose 0 0 0) (pose 1 0 0) stopped = false /\
   isGoalReached gc (pose 0 0 0) (pose 0 1 0) stopped = false /\
   isGoalReached gc (pose 0 0 0) (pose 0 0 1) stopped = false /\
   isGoalReached gc (pose 0 0 (314 / 100)) (pose 0 0 (- (314 / 100))) stopped
   = true /\
   isGoalReached gc (pose 0 0 (314 / 100)) (pose 0 0 (- (314 / 100)))
     {| vx := 1; vy := 0; vtheta := 0 |} = true /\
   isGoalReached gc (pose 0 0 0) (pose 0 0 0)
     {| vx := 1; vy := 0; vtheta := 0 |} = true /\
   isGoalReached gc (pose 0 0 0) (pose 0 0 0)
     {| vx := 0; vy := 1; vtheta := 0 |} = true /\
   isGoalReached gc (pose 0 0 0) (pose 0 0 0)
     {| vx := 0; vy := 0; vtheta := 1 |} = true)
  <-> 0 <= xy_goal_tolerance_ gc < 1
      /\ 2 * PI - 628 / 100 <= yaw_goal_tolerance_ gc < 1.
Proof.
  pose proof PI_bounds as Hpi.
  assert (Hsame : forall v,
            isGoalReached gc (pose 0 0 0) (pose 0 0 0) v = true <->
            0 <= xy_goal_tolerance_ gc /\ 0 <= yaw_goal_tolerance_ gc).
  { intros v.
    rewrite (isGoalReached_at gc (pose 0 0 0) (pose 0 0 0) v 0)
      by (cbn [theta pose]; lra).
    fold (distance (pose 0 0 0) (pose 0 0 0)).
    rewrite distance_same_position. cbn [theta pose].
    replace (0 - 0 - 2 * PI * 0) with 0 by ring. now rewrite Rabs_R0. }
  assert (Hturn : forall v,
            isGoalReached gc (pose 0 0 (314 / 100))
              (pose 0 0 (- (314 / 100))) v = true <->
            0 <= xy_goal_tolerance_ gc
            /\ 2 * PI - 628 / 100 <= yaw_goal_tolerance_ gc).
  { intros v.
    rewrite (isGoalReached_at gc (pose 0 0 (314 / 100))
               (pose 0 0 (- (314 / 100))) v (-1))
      by (cbn [theta pose]; lra).
    fold (distance (pose 0 0 (314 / 100)) (pose 0 0 (- (314 / 100)))).
    rewrite distance_same_position. cbn [theta pose].
    replace (- (314 / 100) - 314 / 100 - 2 * PI * -1)
      with (2 * PI - 628 / 100) by field.
    now rewrite Rabs_pos_eq by lra. }
  assert (Hx : isGoalReached gc (pose 0 0 0) (pose 1 0 0) stopped = true <->
               1 <= xy_goal_tolerance_ gc /\ 0 <= yaw_goal_tolerance_ gc).
  { rewrite (isGoalReached_at gc (pose 0 0 0) (pose 1 0 0) stopped 0)
      by (cbn [theta pose]; lra).
    cbn [x y theta pose].
    replace ((0 - 1) * (0 - 1) + (0 - 0) * (0 - 0)) with 1 by ring.
    rewrite sqrt_1. replace (0 - 0 - 2 * PI * 0) with 0 by ring.
    now rewrite Rabs_R0. }
  assert (Hy : isGoalReached gc (pose 0 0 0) (pose 0 1 0) stopped = true <->
               1 <= xy_goal_tolerance_ gc /\ 0 <= yaw_goal_tolerance_ gc).
  { rewrite (isGoalReached_at gc (pose 0 0 0) (pose 0 1 0) stopped 0)
      by (cbn [theta pose]; lra).
    cbn [x y theta pose].
    replace ((0 - 0) * (0 - 0) + (0 - 1) * (0 - 1)) with 1 by ring.
    rewrite sqrt_1. replace (0 - 0 - 2 * PI * 0) with 0 by ring.
    now rewrite Rabs_R0. }
  assert (Ht : isGoalReached gc (pose 0 0 0) (pose 0 0 1) stopped = true <->
               0 <= xy_goal_tolerance_ gc /\ 1 <= yaw_goal_tolerance_ gc).
  { rewrite (isGoalReached_at gc (pose 0 0 0) (pose 0 0 1) stopped 0)
      by (cbn [theta pose]; lra).
    fold (distance (pose 0 0 0) (pose 0 0 1)).
    rewrite distance_same_position. cbn [theta pose].
    replace (1 - 0 - 2 * PI * 0) with 1 by ring.
    now rewrite Rabs_pos_eq by lra. }
  rewrite <- !not_true_iff_false, !Hsame, !Hturn, Hx, Hy, Ht.
  split.
  - intros (H1 & H2 & H3 & H4 & H5 & _). lra.
  - intros H. repeat split; lra.
Qed.

End GoalCheckerFacts.

(* ------------------------------------------------------------------ *)
(** ** Further properties *)
(* ------------------------------------------------------------------ *)

(** ** More on the kinematic model *)

Module KinematicMore.
Import KinematicParameters.

Lemma square_abs x : Qabs x * Qabs x == x * x.
Proof.
  destruct (Qlt_le_dec x 0) as [H|H].
  - rewrite Qabs_neg by lra. ring.
  - rewrite Qabs_pos by exact H. reflexivity.
Qed.

Lemma zero_abs x : Qeqb (Qabs x) 0 = Qeqb x 0.
Proof.
  apply eq_true_iff_eq. rewrite !Qeqb_iff. split; intros H.
  - destruct (Qlt_le_dec x 0) as [H'|H'].
    + rewrite Qabs_neg in H by lra. lra.
    + rewrite Qabs_pos in H by exact H'. exact H.
  - rewrite H. reflexivity.
Qed.

Lemma zero_opp x : Qeqb (- x) 0 = Qeqb x 0.
Proof. apply eq_true_iff_eq. rewrite !Qeqb_iff. split; intros H; lra. Qed.

Lemma guards_Qeq k x x' y y' theta theta' :
  x * x == x' * x' -> y * y == y' * y' -> Qabs theta == Qabs theta' ->
  Qeqb theta 0 = Qeqb theta' 0 ->
  isValidSpeed k x y theta = isValidSpeed k x' y' theta'.
Proof.
  intros Hx Hy Ht Hz. rewrite !KinematicFacts.isValidSpeed_guards.
  unfold too_fast, too_slow, null_command, Qgeb, Qgtb, Qltb, Qeqb, fabs in *.
  rewrite Hx, Hy, Ht, Hz. reflexivity.
Qed.

(** X1. [isValidSpeed] looks at magnitudes only: the answer for a twist is
    the answer for the absolute values of its components, so it is the same
    for the mirrored and for the reversed twist. *)
Theorem isValidSpeed_magnitudes k vx vy vtheta :
  isValidSpeed k vx vy vtheta = isValidSpeed k (Qabs vx) (Qabs vy) (Qabs vtheta)
  /\ isValidSpeed k vx vy vtheta = isValidSpeed k (- vx) (- vy) (- vtheta)
  /\ isValidSpeed k vx vy vtheta = isValidSpeed k vx (- vy) (- vtheta).
Proof.
  split; [|split].
  - apply guards_Qeq.
    + symmetry. apply square_abs.
    + symmetry. apply square_abs.
    + symmetry. apply Qabs_pos, Qabs_nonneg.
    + symmetry. apply zero_abs.
  - apply guards_Qeq; [ring | ring | symmetry; apply Qabs_opp | symmetry; apply zero_opp].
  - apply guards_Qeq;
      [reflexivity | ring | symmetry; apply Qabs_opp | symmetry; apply zero_opp].
Qed.

Lemma valid_iff k x y theta :
  isValidSpeed k x y theta = true <->
  too_fast k x y = false /\ too_slow k x y theta = false /\
  null_command x y theta = false.
Proof.
  rewrite KinematicFacts.isValidSpeed_guards.
  destruct (too_fast k x y), (too_slow k x y theta), (null_command x y theta);
    cbn; intuition congruence.
Qed.

(** X3. Relaxing thresholds never invalidates a twist: what is valid stays
    valid when the maximum combined speed is raised or disabled and a
    minimum is lowered or disabled. *)
Theorem relaxed_thresholds_keep_valid nh nh' vx vy vtheta :
  relaxes nh nh' ->
  isValidSpeed (initialize nh) vx vy vtheta = true ->
  isValidSpeed (initialize nh') vx vy vtheta = true.
Proof.
  intros (Hmax & Hminxy & Hminth) Hvalid.
  apply valid_iff in Hvalid. destruct Hvalid as (Hfast & Hslow & Hnull).
  apply valid_iff. repeat split; [| |exact Hnull].
  - destruct Hmax as [Hmax|Hmax];
      [now apply KinematicFacts.too_fast_disabled|].
    apply not_true_iff_false. intros H.
    unfold too_fast in *. cbn in *.
    apply andb_true_iff in H. destruct H as [_ H]. apply Qgtb_iff in H.
    assert (E : Qgeb (max_speed_xy nh) 0 = true) by (apply Qgeb_iff; lra).
    rewrite E in Hfast. cbn in Hfast.
    apply not_true_iff_false in Hfast. rewrite Qgtb_iff in Hfast. nra.
  - destruct Hminxy as [Hxy|Hxy];
      [apply KinematicFacts.too_slow_disabled; now left|].
    destruct Hminth as [Hth|Hth];
      [apply KinematicFacts.too_slow_disabled; now right|].
    apply not_true_iff_false. intros H. apply not_true_iff_false in Hslow.
    apply Hslow. unfold too_slow, fabs in *. cbn in *.
    rewrite !andb_true_iff, !Qgeb_iff, !Qltb_iff in *.
    destruct H as [[[H1 H2] H3] H4]. repeat split; try lra. nra.
Qed.

Lemma relaxed_thresholds_keep_valid_witness :
  isValidSpeed
    (initialize (set_speed_thresholds getDefaultKinematicParameters
                   1 (-1) (4 # 10)))
    (3 # 10) 0 0 = true.
Proof.
  apply (relaxed_thresholds_keep_valid getDefaultKinematicParameters).
  - unfold relaxes. cbn. repeat split.
    + right. split; vm_compute; discriminate.
    + left. vm_compute. reflexivity.
    + right. split; vm_compute; discriminate.
  - vm_compute. reflexivity.
Defined.

End KinematicMore.

(** ** Odometry *)

Module OdomFacts.
Import OdomSubscriber.

Lemma thresholded_cases velocity threshold :
  (threshold < Qabs velocity /\
   thresholded_velocity velocity threshold = velocity) \/
  (Qabs velocity <= threshold /\ thresholded_velocity velocity threshold = 0).
Proof.
  unfold thresholded_velocity. destruct (Qgtb _ _) eqn:E.
  - left. apply Qgtb_iff in E. now split.
  - right. apply not_true_iff_false in E. rewrite Qgtb_iff in E.
    split; [lra | reflexivity].
Qed.

Lemma thresholded_idempotent velocity threshold :
  thresholded_velocity (thresholded_velocity velocity threshold) threshold
  = thresholded_velocity velocity threshold.
Proof.
  destruct (thresholded_cases velocity threshold) as [[H E]|[H E]]; rewrite E.
  - exact E.
  - unfold thresholded_velocity. now destruct (Qgtb _ _).
Qed.

(** X4. After [odomCallback] every component of the stored twist is the
    reported component when that one is larger in magnitude than its
    threshold, and exactly zero otherwise; feeding the stored twist back
    changes nothing. *)
Theorem odomCallback_dead_band s linear_x linear_y angular_z :
  let v := getTwist (odomCallback s linear_x linear_y angular_z) in
  ((min_x_velocity_threshold_ s < Qabs linear_x /\ tw_x v = linear_x) \/
   (Qabs linear_x <= min_x_velocity_threshold_ s /\ tw_x v = 0))
  /\ ((min_y_velocity_threshold_ s < Qabs linear_y /\ tw_y v = linear_y) \/
      (Qabs linear_y <= min_y_velocity_threshold_ s /\ tw_y v = 0))
  /\ ((min_theta_velocity_threshold_ s < Qabs angular_z /\
       tw_theta v = angular_z) \/
      (Qabs angular_z <= min_theta_velocity_threshold_ s /\ tw_theta v = 0))
  /\ getTwist (odomCallback (odomCallback s linear_x linear_y angular_z)
                 (tw_x v) (tw_y v) (tw_theta v)) = v.
Proof.
  cbn. repeat split; try apply thresholded_cases.
  now rewrite !thresholded_idempotent.
Qed.

End OdomFacts.

(** ** Critic class names *)

Module SetupFacts.
Import PlannerSetup.
#[local] Open Scope string_scope.

Lemma prefix_append n b : prefix n (n ++ b) = true.
Proof. induction n as [|c n IH]; cbn; [now destruct b|]. now destruct (Ascii.ascii_dec c c). Qed.

Lemma prefix_append_l n a b : prefix n a = true -> prefix n (a ++ b) = true.
Proof.
  revert a. induction n as [|c n IH]; intros a H; cbn; [now destruct (a ++ b)|].
  destruct a as [|d a]; cbn in *; [discriminate|].
  destruct (Ascii.ascii_dec c d); [now apply IH | discriminate].
Qed.

Lemma contains_append_l n a b : contains n a = true -> contains n (a ++ b) = true.
Proof.
  induction a as [|c a IH]; cbn; intros H.
  - rewrite orb_false_r in H. destruct n; [|discriminate].
    destruct b; reflexivity.
  - apply orb_true_iff in H. apply orb_true_iff. destruct H as [H|H].
    + left. now apply (prefix_append_l n (String c a) b).
    + right. now apply IH.
Qed.

Lemma contains_append_r n a b : contains n b = true -> contains n (a ++ b) = true.
Proof.
  intros H. induction a as [|c a IH]; cbn; [exact H|].
  apply orb_true_iff. now right.
Qed.

Lemma prefix_contains n s : prefix n s = true -> contains n s = true.
Proof. intros H. destruct s; cbn [contains]; now rewrite H. Qed.

Lemma contains_self n b : contains n (n ++ b) = true.
Proof. apply prefix_contains, prefix_append. Qed.

(** The loop of [resolveCriticClassName] returns under the first default
    namespace in which the class is available. *)
Lemma first_available_first avail namespaces base_name :
  match first_available avail namespaces base_name with
  | Some full_name =>
      exists before ns after,
        namespaces = (before ++ ns :: after)%list /\
        Forall (fun ns' => avail (ns' ++ "::" ++ base_name) = false) before /\
        avail (ns ++ "::" ++ base_name) = true /\
        full_name = ns ++ "::" ++ base_name
  | None =>
      Forall (fun ns' => avail (ns' ++ "::" ++ base_name) = false) namespaces
  end.
Proof.
  induction namespaces as [|ns rest IH]; cbn [first_available]; [constructor|].
  destruct (avail (ns ++ "::" ++ base_name)) eqn:E.
  - exists [], ns, rest. repeat split; [constructor | exact E].
  - destruct (first_available avail rest base_name) as [full|].
    + destruct IH as (before & ns' & after & -> & Hb & Ha & ->).
      exists (ns :: before), ns', after. repeat split; try assumption.
      now constructor.
    + now constructor.
Qed.

(** X5. [resolveCriticClassName] appends ["Critic"] to a name that does not
    contain it; a name that then contains ["::"] is returned as it is; any
    other is returned with the first of the default namespaces, in their
    order, under which the loader has the class, and ["::"], in front, or
    as it is when the loader has it under none.  The result always contains
    ["Critic"], and resolving it again changes nothing. *)
Theorem resolveCriticClassName_resolved namespaces isClassAvailable base_name :
  let suffixed := if contains "Critic" base_name then base_name
                  else base_name ++ "Critic" in
  let resolved := resolveCriticClassName namespaces isClassAvailable base_name in
  let unavailable ns := isClassAvailable (ns ++ "::" ++ suffixed) = false in
  (contains "::" suffixed = true /\ resolved = suffixed
   \/ contains "::" suffixed = false /\
      (exists before ns after,
         namespaces = (before ++ ns :: after)%list /\
         Forall unavailable before /\
         isClassAvailable (ns ++ "::" ++ suffixed) = true /\
         resolved = ns ++ "::" ++ suffixed)
   \/ contains "::" suffixed = false /\
      Forall unavailable namespaces /\ resolved = suffixed)
  /\ contains "Critic" resolved = true
  /\ resolveCriticClassName namespaces isClassAvailable resolved = resolved.
Proof.
  intros suffixed resolved unavailable.
  assert (Hs : contains "Critic" suffixed = true).
  { subst suffixed. destruct (contains "Critic" base_name) eqn:E; [exact E|].
    apply contains_append_r. apply (contains_self "Critic" EmptyString). }
  assert (Hr : resolved
               = if contains "::" suffixed then suffixed
                 else match first_available isClassAvailable namespaces
                              suffixed with
                      | Some full_name => full_name
                      | None => suffixed
                      end) by reflexivity.
  pose proof (first_available_first isClassAvailable namespaces suffixed)
    as Hf.
  destruct (contains "::" suffixed) eqn:Eq.
  - (* the name is qualified already *)
    split; [left; now split|]. rewrite Hr. split; [exact Hs|].
    unfold resolveCriticClassName. fold suffixed. rewrite Hs, Eq. reflexivity.
  - destruct (first_available isClassAvailable namespaces suffixed)
      as [full_name|] eqn:Ef.
    + (* a default namespace has the class *)
      destruct Hf as (before & ns & after & Hn & Hb & Ha & Hfull).
      assert (Hq : contains "::" resolved = true).
      { rewrite Hr, Hfull. apply contains_append_r, (contains_self "::"). }
      assert (Hc : contains "Critic" resolved = true).
      { rewrite Hr, Hfull. now apply contains_append_r, contains_append_r. }
      split; [|split; [exact Hc|]].
      * right. left. split; [reflexivity|].
        exists before, ns, after. rewrite Hr. now repeat split.
      * unfold resolveCriticClassName at 1. now rewrite Hc, Hq.
    + (* none has it *)
      split; [|split].
      * right. right. now repeat split.
      * now rewrite Hr.
      * rewrite Hr. unfold resolveCriticClassName. fold suffixed.
        now rewrite Hs, Eq, Ef.
Qed.

End SetupFacts.

(** ** More on scoring *)

Module ScoringMore.
Import DWBLocalPlanner PlannerCycle.




Lemma scoreCritics_alike critics critics' tr bs :
  Forall2 alike critics critics' ->
  forall sc, scoreCritics critics tr bs sc = scoreCritics critics' tr bs sc.
Proof.
  induction 1 as [|c c' critics critics' (Hn & Hs & Hz) _ IH]; intros sc;
    cbn [scoreCritics]; [reflexivity|].
  rewrite <- Hn, <- Hs.
  destruct (Qeqb (getScale c) 0) eqn:Ez; [apply IH|].
  destruct Hz as [Hz|Hz].
  - apply Qeqb_iff in Hz. congruence.
  - rewrite <- Hz. destruct (critic_scoreTrajectory c tr); [|reflexivity].
    destruct (Qgtb bs 0 && _); [reflexivity | apply IH].
Qed.

(** X7. A critic of scale zero is never asked: replacing the scoring
    function of such a critic by any other, one that always throws
    included, changes neither the score nor the legality of any
    trajectory. *)
Theorem zero_scale_never_scored critics critics' tr best_score :
  Forall2 alike critics critics' ->
  scoreTrajectory critics tr best_score = scoreTrajectory critics' tr best_score.
Proof. intros H. now apply scoreCritics_alike. Qed.

Lemma zero_scale_never_scored_witness :
  scoreTrajectory [speed_critic 1; strafe_critic 0] empty_trajectory (-1)
  = scoreTrajectory [speed_critic 1; {| getName := "Strafe"; getScale := 0;
                                         critic_scoreTrajectory _ :=
                                           Illegal "Strafe" "never" |}]
      empty_trajectory (-1).
Proof.
  apply (zero_scale_never_scored
           [speed_critic 1; strafe_critic 0]
           [speed_critic 1; {| getName := "Strafe"; getScale := 0;
                               critic_scoreTrajectory _ :=
                                 Illegal "Strafe" "never" |}]).
  repeat constructor; cbn; (right; reflexivity) || (left; reflexivity).
Defined.

Lemma scoreCritics_threshold critics tr bs : forall sc,
  scoreCritics critics tr bs sc = scoreCritics critics tr (-1) sc \/
  exists p, scoreCritics critics tr bs sc = Scored p /\ 0 < bs < total p.
Proof.
  induction critics as [|c critics IH]; intros sc; cbn [scoreCritics].
  - now left.
  - destruct (Qeqb (getScale c) 0); [apply IH|].
    destruct (critic_scoreTrajectory c tr) as [q|n m]; [|now left].
    change (Qgtb (-1) 0) with false. cbn [andb].
    destruct (Qgtb bs 0 && _) eqn:Hcut; [|apply IH].
    right. eexists. split; [reflexivity|].
    apply andb_true_iff in Hcut. destruct Hcut as [H1 H2].
    apply Qgtb_iff in H1, H2. split; assumption.
Qed.

(** X8. Whatever the critics return, a threshold changes the outcome of
    [scoreTrajectory] in one way only: either the outcome is the one of
    scoring in full, or it is a score whose total is above a positive
    threshold.  A total at or below the threshold is a full score. *)
Theorem threshold_cuts_only_above critics tr best_score :
  scoreTrajectory critics tr best_score = scoreTrajectory critics tr (-1) \/
  exists partial,
    scoreTrajectory critics tr best_score = Scored partial /\
    0 < best_score < total partial.
Proof. apply scoreCritics_threshold. Qed.

Lemma scoreCritics_illegal critics tr bs : forall sc n m,
  scoreCritics critics tr bs sc = IllegalTrajectoryException n m ->
  exists c, In c critics /\ ~ getScale c == 0 /\
            critic_scoreTrajectory c tr = Illegal n m.
Proof.
  induction critics as [|c critics IH]; intros sc n m H; cbn [scoreCritics] in H;
    [discriminate|].
  destruct (Qeqb (getScale c) 0) eqn:Ez.
  - apply IH in H. destruct H as (c' & Hin & H). exists c'. split; [now right|exact H].
  - destruct (critic_scoreTrajectory c tr) as [q|n' m'] eqn:Ec.
    + destruct (Qgtb bs 0 && _); [discriminate|].
      apply IH in H. destruct H as (c' & Hin & H). exists c'.
      split; [now right|exact H].
    + inversion H; subst. exists c. split; [now left|]. split; [|exact Ec].
      intros Hz. apply Qeqb_iff in Hz. congruence.
Qed.

Lemma scoreCritics_full_illegal critics tr : forall sc,
  (exists n m, scoreCritics critics tr (-1) sc = IllegalTrajectoryException n m)
  <-> Exists (objects tr) critics.
Proof.
  induction critics as [|c critics IH]; intros sc; cbn [scoreCritics].
  - split; [intros (n & m & H); cbn in H; discriminate H | intros H; inversion H].
  - rewrite Exists_cons. destruct (Qeqb (getScale c) 0) eqn:Ez.
    + rewrite IH. split; [now right|]. intros [(Hz & _)|H]; [|exact H].
      apply Qeqb_iff in Ez. contradiction.
    + assert (Hz : ~ getScale c == 0)
        by (intros Hz; apply Qeqb_iff in Hz; congruence).
      destruct (critic_scoreTrajectory c tr) as [q|n m] eqn:Ec.
      * change (Qgtb (-1) 0) with false. cbn [andb]. rewrite IH.
        split; [now right|]. intros [(_ & n & m & H)|H]; [congruence|exact H].
      * split; [|now eauto]. intros _. left. split; [exact Hz|]. now eauto.
Qed.

(** X9. An [IllegalTrajectoryException] out of [scoreTrajectory] is the one
    a critic of non-zero scale threw for that trajectory; and scoring in
    full throws exactly when some critic of non-zero scale does. *)
Theorem illegal_comes_from_a_critic critics tr best_score :
  (forall n m,
     scoreTrajectory critics tr best_score = IllegalTrajectoryException n m ->
     exists c, In c critics /\ ~ getScale c == 0 /\
               critic_scoreTrajectory c tr = Illegal n m)
  /\ ((exists n m,
         scoreTrajectory critics tr (-1) = IllegalTrajectoryException n m)
      <-> Exists (objects tr) critics).
Proof.
  split.
  - intros n m. apply scoreCritics_illegal.
  - apply scoreCritics_full_illegal.
Qed.

End ScoringMore.

(** ** More on the search *)

Module SearchFacts.
Import DWBLocalPlanner PlannerCycle ScoringFacts.

(** *** What the loop counts *)

Lemma core_step_tracker critics threshold st tr :
  (legal_count (tracker (core_step critics threshold st tr))
   + length (illegal (tracker (core_step critics threshold st tr))))%nat
  = S (legal_count (tracker st) + length (illegal (tracker st))).
Proof.
  unfold core_step. destruct (scoreTrajectory critics tr threshold); cbn.
  - reflexivity.
  - rewrite length_app. cbn. lia.
Qed.

Lemma core_loop_tracker early critics trajs : forall st,
  (legal_count (tracker (core_loop early critics st trajs))
   + length (illegal (tracker (core_loop early critics st trajs))))%nat
  = (legal_count (tracker st) + length (illegal (tracker st))
     + length trajs)%nat.
Proof.
  induction trajs as [|tr trajs IH]; intros st; cbn [core_loop length]; [lia|].
  rewrite IH, core_step_tracker. lia.
Qed.

Lemma core_step_twists critics threshold st tr r :
  results st = Some r ->
  exists r' s,
    results (core_step critics threshold st tr) = Some r' /\
    twists r' = twists r ++ [s].
Proof.
  intros Hr. unfold core_step.
  destruct (scoreTrajectory critics tr threshold); rewrite Hr; cbn;
    eexists _, _; split; reflexivity.
Qed.

Lemma core_loop_twists early critics trajs : forall st r,
  results st = Some r ->
  exists r' new,
    results (core_loop early critics st trajs) = Some r' /\
    twists r' = twists r ++ new /\ length new = length trajs.
Proof.
  induction trajs as [|tr trajs IH]; intros st r Hr; cbn [core_loop].
  - exists r, []. rewrite app_nil_r. now repeat split.
  - destruct (core_step_twists critics
                (if early then total (best st) else -1) st tr r Hr)
      as (r1 & s & Hr1 & Ht1).
    destruct (IH _ r1 Hr1) as (r' & new & Hr' & Ht' & Hl).
    exists r', (s :: new). repeat split; [exact Hr' | | cbn; now rewrite Hl].
    rewrite Ht', Ht1, <- app_assoc. reflexivity.
Qed.

Lemma core_loop_no_results early critics trajs : forall st,
  results st = None -> results (core_loop early critics st trajs) = None.
Proof.
  induction trajs as [|tr trajs IH]; intros st Hr; cbn [core_loop]; [exact Hr|].
  apply IH. unfold core_step.
  destruct (scoreTrajectory critics tr _); rewrite Hr; reflexivity.
Qed.

(** *** The evaluation does not steer the search *)

Lemma core_step_blind critics threshold st st' tr :
  best st = best st' -> worst st = worst st' -> tracker st = tracker st' ->
  best (core_step critics threshold st tr)
  = best (core_step critics threshold st' tr) /\
  worst (core_step critics threshold st tr)
  = worst (core_step critics threshold st' tr) /\
  tracker (core_step critics threshold st tr)
  = tracker (core_step critics threshold st' tr).
Proof.
  intros Hb Hw Ht. unfold core_step.
  destruct (scoreTrajectory critics tr threshold); cbn;
    rewrite Hb, Hw, Ht; repeat split.
Qed.

Lemma core_loop_blind early critics trajs : forall st st',
  best st = best st' -> worst st = worst st' -> tracker st = tracker st' ->
  best (core_loop early critics st trajs)
  = best (core_loop early critics st' trajs) /\
  tracker (core_loop early critics st trajs)
  = tracker (core_loop early critics st' trajs).
Proof.
  induction trajs as [|tr trajs IH]; intros st st' Hb Hw Ht; cbn [core_loop].
  - now split.
  - rewrite <- Hb.
    destruct (core_step_blind critics
                (if early then total (best st) else -1) st st' tr Hb Hw Ht)
      as (Hb1 & Hw1 & Ht1).
    now apply IH.
Qed.

(** *** Where the best score sits *)

Lemma nth_error_app_Some {A} (l l' : list A) i a :
  nth_error l i = Some a -> nth_error (l ++ l') i = Some a.
Proof.
  intros H. rewrite nth_error_app1; [exact H|].
  apply nth_error_Some. congruence.
Qed.

Lemma core_step_best_found critics threshold seen st tr :
  (best st = best (core_init None) \/ best_found critics seen st) ->
  best (core_step critics threshold st tr) = best (core_init None) \/
  best_found critics (seen ++ [tr]) (core_step critics threshold st tr).
Proof.
  intros Hst. unfold core_step, best_found in *.
  destruct (scoreTrajectory critics tr threshold) as [s|n m] eqn:Es.
  - assert (Htr : traj s = tr)
      by (unfold scoreTrajectory in Es; now apply scoreCritics_traj in Es).
    cbn [best results].
    destruct (Qltb (total (best st)) 0 || Qltb (total s) (total (best st)));
      cbv iota.
    + right. split; [rewrite Htr; apply in_or_app; right; now left|].
      destruct (results st) as [r|]; [|exact I]. cbn.
      rewrite length_app. cbn.
      replace (length (twists r) + 1 - 1)%nat with (length (twists r)) by lia.
      rewrite nth_error_app2, Nat.sub_diag by lia. reflexivity.
    + destruct Hst as [Hst|[Hin Hr]]; [now left|]. right.
      split; [apply in_or_app; now left|].
      destruct (results st) as [r|]; [|exact I]. cbn.
      now apply nth_error_app_Some.
  - cbn [best results].
    destruct Hst as [Hst|[Hin Hr]]; [now left|]. right.
    split; [apply in_or_app; now left|].
    destruct (results st) as [r|]; [|exact I]. cbn.
    now apply nth_error_app_Some.
Qed.

Lemma core_loop_best_found early critics trajs : forall seen st,
  (best st = best (core_init None) \/ best_found critics seen st) ->
  best (core_loop early critics st trajs) = best (core_init None) \/
  best_found critics (seen ++ trajs) (core_loop early critics st trajs).
Proof.
  induction trajs as [|tr trajs IH]; intros seen st Hst; cbn [core_loop].
  - now rewrite app_nil_r.
  - replace (seen ++ tr :: trajs) with ((seen ++ [tr]) ++ trajs)
      by (rewrite <- app_assoc; reflexivity).
    apply IH. now apply core_step_best_found.
Qed.

Lemma core_finish_best st b r :
  core_finish st = Best b r -> b = best st /\ r = results st /\
  best st <> best (core_init None).
Proof.
  unfold core_finish. destruct (Qltb (total (best st)) 0) eqn:E; [discriminate|].
  intros H. inversion H; subst. repeat split.
  intros Hi. rewrite Hi in E. discriminate E.
Qed.

(** *** The best score is the cheapest *)

Lemma full_total_nonneg critics tr f :
  raw_scores_nonneg critics -> scales_nonneg critics ->
  scoreTrajectory critics tr (-1) = Scored f -> 0 <= total f.
Proof.
  intros Hraw Hscale H. unfold scoreTrajectory in H.
  apply (scoreCritics_full_grows critics tr Hraw Hscale) in H. exact H.
Qed.

Lemma core_step_cheapest critics seen st tr :
  raw_scores_nonneg critics -> scales_nonneg critics ->
  (total (best st) < 0 /\ Forall (illegal_in_full critics) seen) \/
  (0 <= total (best st) /\ cheapest critics seen (total (best st))) ->
  (total (best (core_step critics (-1) st tr)) < 0 /\
   Forall (illegal_in_full critics) (seen ++ [tr])) \/
  (0 <= total (best (core_step critics (-1) st tr)) /\
   cheapest critics (seen ++ [tr]) (total (best (core_step critics (-1) st tr)))).
Proof.
  intros Hraw Hscale Hst. unfold core_step.
  destruct (scoreTrajectory critics tr (-1)) as [f|n m] eqn:Ef; cbn [best].
  - pose proof (full_total_nonneg critics tr f Hraw Hscale Ef) as Hf.
    right. destruct Hst as [[Hneg Hall]|[Hpos Hmin]].
    + assert (E : Qltb (total (best st)) 0 = true) by now apply Qltb_iff.
      rewrite E. cbn [orb]. split; [exact Hf|].
      intros tr' f' Hin Hf'. apply in_app_or in Hin. destruct Hin as [Hin|[<-|[]]].
      * rewrite Forall_forall in Hall. destruct (Hall tr' Hin) as (n & m & Hi).
        congruence.
      * rewrite Ef in Hf'. inversion Hf'; subst. lra.
    + assert (E : Qltb (total (best st)) 0 = false)
        by (apply not_true_is_false; rewrite Qltb_iff; lra).
      rewrite E. cbn [orb].
      destruct (Qltb (total f) (total (best st))) eqn:El.
      * apply Qltb_iff in El. split; [exact Hf|].
        intros tr' f' Hin Hf'. apply in_app_or in Hin.
        destruct Hin as [Hin|[<-|[]]].
        -- specialize (Hmin tr' f' Hin Hf'). lra.
        -- rewrite Ef in Hf'. inversion Hf'; subst. lra.
      * apply not_true_iff_false in El. rewrite Qltb_iff in El.
        split; [exact Hpos|].
        intros tr' f' Hin Hf'. apply in_app_or in Hin.
        destruct Hin as [Hin|[<-|[]]].
        -- exact (Hmin tr' f' Hin Hf').
        -- rewrite Ef in Hf'. inversion Hf'; subst. lra.
  - destruct Hst as [[Hneg Hall]|[Hpos Hmin]].
    + left. split; [exact Hneg|]. apply Forall_app. split; [exact Hall|].
      constructor; [|constructor]. now exists n, m.
    + right. split; [exact Hpos|].
      intros tr' f' Hin Hf'. apply in_app_or in Hin.
      destruct Hin as [Hin|[<-|[]]]; [exact (Hmin tr' f' Hin Hf') | congruence].
Qed.

Lemma core_loop_cheapest critics trajs : forall seen st,
  raw_scores_nonneg critics -> scales_nonneg critics ->
  (total (best st) < 0 /\ Forall (illegal_in_full critics) seen) \/
  (0 <= total (best st) /\ cheapest critics seen (total (best st))) ->
  (total (best (core_loop false critics st trajs)) < 0 /\
   Forall (illegal_in_full critics) (seen ++ trajs)) \/
  (0 <= total (best (core_loop false critics st trajs)) /\
   cheapest critics (seen ++ trajs)
     (total (best (core_loop false critics st trajs)))).
Proof.
  induction trajs as [|tr trajs IH]; intros seen st Hraw Hscale Hst;
    cbn [core_loop].
  - now rewrite app_nil_r.
  - replace (seen ++ tr :: trajs) with ((seen ++ [tr]) ++ trajs)
      by (rewrite <- app_assoc; reflexivity).
    apply IH; try assumption. now apply core_step_cheapest.
Qed.

Lemma core_loop_snoc early critics trajs tr : forall st,
  core_loop early critics st (trajs ++ [tr])
  = core_step critics
      (if early then total (best (core_loop early critics st trajs)) else -1)
      (core_loop early critics st trajs) tr.
Proof.
  induction trajs as [|tr' trajs IH]; intros st; cbn [core_loop app];
    [reflexivity|]. apply IH.
Qed.

(** X10. A total below zero is read as "no best yet": when the score of
    the last trajectory of a search is legal and negative, the search ends
    in [NoLegalTrajectoriesException], with a tracker that counts that
    trajectory as legal. *)
Theorem negative_total_is_no_best critics trajs tr results s :
  scoreTrajectory critics tr
    (total (best (core_loop true critics (core_init results) trajs)))
  = Scored s ->
  total s < 0 ->
  exists t r,
    core_finish (core_loop true critics (core_init results) (trajs ++ [tr]))
    = NoLegalTrajectoriesException t r
    /\ (1 <= legal_count t)%nat.
Proof.
  intros Hs Hneg. rewrite core_loop_snoc.
  set (st := core_loop true critics (core_init results) trajs) in *.
  unfold core_step. rewrite Hs. unfold core_finish. cbn [best tracker DWBLocalPlanner.results].
  assert (Hb : Qltb (total (best st)) 0 || Qltb (total s) (total (best st)) = true).
  { destruct (Qltb (total (best st)) 0) eqn:E; [reflexivity|].
    apply not_true_iff_false in E. rewrite Qltb_iff in E.
    cbn. apply Qltb_iff. lra. }
  rewrite Hb.
  assert (Hn : Qltb (total s) 0 = true) by now apply Qltb_iff.
  rewrite Hn. eexists _, _. split; [reflexivity|]. cbn. lia.
Qed.

Lemma negative_total_is_no_best_witness :
  exists t r,
    core_finish (core_loop true [speed_critic (-1)] (core_init None)
                   ([] ++ [{| velocity := mkTwist 1 0 0; duration := 0;
                              poses := [] |}]))
    = NoLegalTrajectoriesException t r
    /\ (1 <= legal_count t)%nat.
Proof.
  eapply (negative_total_is_no_best [speed_critic (-1)] []
            {| velocity := mkTwist 1 0 0; duration := 0; poses := [] |} None).
  - vm_compute. reflexivity.
  - vm_compute. reflexivity.
Defined.

Section Search.
Context {traj_generator_ : TrajectoryGenerator}.

(** X11. With raw scores and scales that are not negative, the search
    returns the cheapest: the total of the best score is at most the full
    total of every legal candidate; and it throws
    [NoLegalTrajectoriesException] only when every candidate is illegal. *)
Theorem best_is_cheapest critics pose velocity results :
  raw_scores_nonneg critics -> scales_nonneg critics ->
  match coreScoringAlgorithm critics pose velocity results with
  | Best b _ => cheapest critics (candidates pose velocity) (total b)
  | NoLegalTrajectoriesException _ _ =>
      Forall (illegal_in_full critics) (candidates pose velocity)
  end.
Proof.
  intros Hraw Hscale. unfold coreScoringAlgorithm, core_finish.
  rewrite (core_loop_best critics (candidates pose velocity)
             (core_init results) (core_init results) Hraw Hscale eq_refl).
  destruct (core_loop_cheapest critics (candidates pose velocity) []
              (core_init results) Hraw Hscale)
    as [[Hneg Hall]|[Hpos Hmin]].
  - left. split; [cbn; lra | constructor].
  - apply Qltb_iff in Hneg. rewrite Hneg. exact Hall.
  - assert (E : Qltb (total (best (core_loop false critics (core_init results)
                                     (candidates pose velocity)))) 0 = false)
      by (apply not_true_is_false; rewrite Qltb_iff; lra).
    rewrite E. exact Hmin.
Qed.


(** X12. Every candidate is counted once: the tracker a failed search
    throws holds as many legal and illegal trajectories together as the
    generator yielded twists; and an evaluation that is kept grows by one
    entry per twist, in their order, behind what it held. *)
Theorem every_candidate_counted critics pose velocity results :
  match thrown (coreScoringAlgorithm critics pose velocity results) with
  | Some t =>
      (legal_count t + length (illegal t))%nat = length (gen_twists velocity)
  | None => True
  end
  /\ match results with
     | Some r0 =>
         exists r new,
           evaluation (coreScoringAlgorithm critics pose velocity results)
           = Some r
           /\ twists r = twists r0 ++ new
           /\ length new = length (gen_twists velocity)
     | None =>
         evaluation (coreScoringAlgorithm critics pose velocity results) = None
     end.
Proof.
  unfold coreScoringAlgorithm, core_finish.
  pose proof (core_loop_tracker true critics (candidates pose velocity)
                (core_init results)) as Ht.
  unfold candidates in *. rewrite length_map in Ht. cbn in Ht. split.
  - destruct (Qltb _ 0); cbn; [exact Ht | exact I].
  - destruct results as [r0|].
    + destruct (core_loop_twists true critics
                  (map (gen_trajectory pose velocity) (gen_twists velocity))
                  (core_init (Some r0)) r0 eq_refl) as (r & new & Hr & Htw & Hl).
      exists r, new. rewrite length_map in Hl.
      destruct (Qltb _ 0); cbn; now repeat split.
    + pose proof (core_loop_no_results true critics
                    (map (gen_trajectory pose velocity) (gen_twists velocity))
                    (core_init None) eq_refl) as Hr.
      destruct (Qltb _ 0); cbn; exact Hr.
Qed.

(** X13. The evaluation never steers the search: the trajectory selected,
    and the tracker thrown when none is, are the same whether an evaluation
    is recorded or not, and whatever it held before. *)
Theorem evaluation_does_not_steer critics pose velocity results results' :
  selected (coreScoringAlgorithm critics pose velocity results)
  = selected (coreScoringAlgorithm critics pose velocity results')
  /\ thrown (coreScoringAlgorithm critics pose velocity results)
     = thrown (coreScoringAlgorithm critics pose velocity results').
Proof.
  unfold coreScoringAlgorithm, core_finish.
  destruct (core_loop_blind true critics (candidates pose velocity)
              (core_init results) (core_init results')
              eq_refl eq_refl eq_refl) as [Hb Ht].
  rewrite Hb, Ht. destruct (Qltb _ 0); cbn; now split.
Qed.

(** X14. The score returned as best is the score of one of the candidate
    trajectories, and when an evaluation is kept, [best_index] is where that
    score is recorded in it. *)
Theorem best_is_recorded critics pose velocity results b r :
  coreScoringAlgorithm critics pose velocity results = Best b r ->
  In (traj b) (candidates pose velocity)
  /\ match r with
     | Some e => nth_error (twists e) (best_index e) = Some b
     | None => True
     end.
Proof.
  unfold coreScoringAlgorithm. intros H.
  apply core_finish_best in H. destruct H as (-> & -> & Hne).
  destruct (core_loop_best_found true critics (candidates pose velocity) []
              (core_init results) (or_introl eq_refl)) as [Hi|[Hin Hr]];
    [contradiction|].
  now split.
Qed.

End Search.

Lemma every_candidate_counted_fixture :
  thrown (@coreScoringAlgorithm two_twists [forbidding_critic 1] origin zero None)
  = Some {| legal_count := 0;
            illegal := [("Forbid", "not allowed"); ("Forbid", "not allowed")]
         |}%string.
Proof. vm_compute. reflexivity. Qed.

Lemma best_is_recorded_witness :
  exists b r,
    @coreScoringAlgorithm two_twists [speed_critic 1; strafe_critic (1 # 2)]
      origin zero (Some empty_evaluation) = Best b r
    /\ In (traj b) (@candidates two_twists origin zero).
Proof.
  eexists. eexists. split; [vm_compute; reflexivity|].
  eapply proj1.
  eapply (@best_is_recorded two_twists [speed_critic 1; strafe_critic (1 # 2)]
            origin zero (Some empty_evaluation)).
  vm_compute. reflexivity.
Defined.

Lemma best_is_cheapest_witness :
  match @coreScoringAlgorithm two_twists
          [speed_critic 1; strafe_critic (1 # 2)] origin zero None with
  | Best b _ =>
      cheapest [speed_critic 1; strafe_critic (1 # 2)]
        (@candidates two_twists origin zero) (total b)
  | NoLegalTrajectoriesException _ _ =>
      Forall (illegal_in_full [speed_critic 1; strafe_critic (1 # 2)])
        (@candidates two_twists origin zero)
  end.
Proof.
  apply (@best_is_cheapest two_twists [speed_critic 1; strafe_critic (1 # 2)]
           origin zero None).
  - apply fixture_raw_scores_nonneg.
  - repeat constructor; cbn; lra.
Defined.

End SearchFacts.

(** ** More on the window *)

Module WindowMore.
Import DWBLocalPlanner PlannerCycle PlanWindowFacts.

Lemma find_if_found {A} (pred : A -> bool) l :
  find_if pred l <> [] <-> Exists (fun a => pred a = true) l.
Proof.
  induction l as [|a l IH]; cbn.
  - split; [congruence | intros H; inversion H].
  - destruct (pred a) eqn:E.
    + split; [intros _; now left | discriminate].
    + rewrite IH. split; [now right|].
      intros H. inversion H; subst; [congruence | assumption].
Qed.

Lemma find_if_again {A} (pred : A -> bool) l :
  find_if pred (find_if pred l) = find_if pred l.
Proof.
  induction l as [|a l IH]; cbn; [reflexivity|].
  destruct (pred a) eqn:E; [cbn; now rewrite E | exact IH].
Qed.

Lemma last_suffix {A} (l1 l2 : list A) d d' :
  l2 <> [] -> last (l1 ++ l2) d = last l2 d'.
Proof.
  intros H. induction l1 as [|a l1 IH]; cbn.
  - clear -H. revert d d'. induction l2 as [|b l2 IH]; intros d d'; [congruence|].
    destruct l2 as [|c l2]; [reflexivity|].
    change (last (b :: c :: l2) d) with (last (c :: l2) d).
    change (last (b :: c :: l2) d') with (last (c :: l2) d').
    apply IH. discriminate.
  - destruct (l1 ++ l2) eqn:E; [|exact IH].
    apply app_eq_nil in E. destruct E. congruence.
Qed.

Section Window.
Variable env : Collaborators.

(** The two scans of [transformGlobalPlan]. *)
Lemma transformation_begin_split pl robot_pose :
  exists skipped,
    global_plan_ pl = skipped ++ transformation_begin env pl robot_pose /\
    Forall (fun a => Qltb (getSquareDistance robot_pose a)
                          (sq_transform_start_threshold env pl) = false)
           skipped /\
    match transformation_begin env pl robot_pose with
    | [] => True
    | a :: _ => Qltb (getSquareDistance robot_pose a)
                     (sq_transform_start_threshold env pl) = true
    end.
Proof. exact (find_if_split _ _). Qed.

Lemma window_split pl robot_pose :
  transformation_begin env pl robot_pose
  = window env pl robot_pose ++ transformation_end env pl robot_pose /\
  Forall (fun a => Qgtb (getSquareDistance robot_pose a)
                        (sq_transform_end_threshold env pl) = false)
         (window env pl robot_pose).
Proof. exact (range_find_if _ _). Qed.

Lemma thresholds_when_pruning pl :
  prune_plan_ pl = true ->
  sq_transform_start_threshold env pl = sq_transform_end_threshold env pl.
Proof.
  intros H. unfold sq_transform_start_threshold, sq_transform_end_threshold.
  now rewrite H.
Qed.

(** What a call that returns a plan has done. *)
Lemma transformGlobalPlan_returns pl pose tp :
  snd (transformGlobalPlan env pl pose) = TransformedPlan tp ->
  exists robot_pose skipped g w rest,
    robot_in_plan_frame env pose = Some robot_pose /\
    global_plan_ pl = skipped ++ (g :: w) ++ rest /\
    transformation_begin env pl robot_pose = (g :: w) ++ rest /\
    window env pl robot_pose = g :: w /\
    tp = map (plan_pose_to_local env) (g :: w) /\
    Forall (fun a => Qltb (getSquareDistance robot_pose a)
                          (sq_transform_start_threshold env pl) = false)
           skipped /\
    Qltb (getSquareDistance robot_pose g)
         (sq_transform_start_threshold env pl) = true /\
    Forall (fun a => Qgtb (getSquareDistance robot_pose a)
                          (sq_transform_end_threshold env pl) = false)
           (g :: w).
Proof.
  unfold transformGlobalPlan.
  destruct (global_plan_ pl) as [|g0 gs] eqn:Eg; [discriminate|].
  destruct (robot_in_plan_frame env pose) as [robot_pose|]; [|discriminate].
  destruct (map (plan_pose_to_local env) (window env pl robot_pose))
    as [|t ts] eqn:Em; [discriminate|].
  cbn. intros H. inversion H; subst tp. clear H.
  destruct (transformation_begin_split pl robot_pose)
    as (skipped & Hl & Hs & Hhead).
  destruct (window_split pl robot_pose) as [Hr Hfar].
  destruct (window env pl robot_pose) as [|g w] eqn:Ew; [discriminate|].
  exists robot_pose, skipped, g, w, (transformation_end env pl robot_pose).
  rewrite <- Eg.
  split; [reflexivity|].
  split; [etransitivity; [exact Hl | f_equal; exact Hr]|].
  split; [exact Hr|].
  split; [exact Ew|].
  split; [symmetry; exact Em|].
  split; [exact Hs|].
  split; [rewrite Hr in Hhead; exact Hhead | exact Hfar].
Qed.

(** X16. A transformed plan holds only poses near the robot: it is the
    image of a stretch of the stored plan that starts at the first pose
    nearer than the start threshold and holds no pose farther than the end
    threshold. *)
Theorem window_is_near pl pose tp :
  snd (transformGlobalPlan env pl pose) = TransformedPlan tp ->
  exists robot_pose skipped g w rest,
    robot_in_plan_frame env pose = Some robot_pose
    /\ global_plan_ pl = skipped ++ (g :: w) ++ rest
    /\ tp = map (plan_pose_to_local env) (g :: w)
    /\ Forall (fun a => ~ getSquareDistance robot_pose a
                          < sq_transform_start_threshold env pl) skipped
    /\ getSquareDistance robot_pose g < sq_transform_start_threshold env pl
    /\ Forall (fun a => getSquareDistance robot_pose a
                        <= sq_transform_end_threshold env pl) (g :: w).
Proof.
  intros H. apply transformGlobalPlan_returns in H.
  destruct H as (robot_pose & skipped & g & w & rest
                 & Hr & Hp & _ & _ & Htp & Hs & Hg & Hw).
  exists robot_pose, skipped, g, w, rest. repeat split; try assumption.
  - eapply Forall_impl; [|exact Hs]. cbn. intros a Ha Hlt.
    apply Qltb_iff in Hlt. congruence.
  - now apply Qltb_iff.
  - eapply Forall_impl; [|exact Hw]. cbn. intros a Ha.
    apply not_true_iff_false in Ha.
    rewrite Qgtb_iff in Ha. lra.
Qed.

Lemma window_nonempty_when_pruning pl robot_pose :
  prune_plan_ pl = true ->
  transformation_begin env pl robot_pose <> [] ->
  window env pl robot_pose <> [].
Proof.
  intros Hprune Hb.
  destruct (transformation_begin_split pl robot_pose)
    as (_ & _ & _ & Hhead).
  destruct (window_split pl robot_pose) as [Hr _].
  destruct (transformation_begin env pl robot_pose) as [|g rest] eqn:Eb;
    [congruence|].
  intros Hw. rewrite Hw in Hr. cbn in Hr.
  unfold transformation_end in Hr. rewrite Eb in Hr. cbn [find_if] in Hr.
  assert (Hfar : Qgtb (getSquareDistance robot_pose g)
                      (sq_transform_end_threshold env pl) = false).
  { apply not_true_is_false. rewrite Qgtb_iff.
    rewrite <- (thresholds_when_pruning pl Hprune).
    apply Qltb_iff in Hhead. lra. }
  rewrite Hfar in Hr.
  destruct (find_if_split
              (fun a => Qgtb (getSquareDistance robot_pose a)
                             (sq_transform_end_threshold env pl)) rest)
    as (sk & Hsk & _).
  apply (f_equal (@length _)) in Hr. rewrite Hsk in Hr at 1.
  cbn in Hr. rewrite length_app in Hr. lia.
Qed.

(** X17. With pruning enabled, [transformGlobalPlan] returns a plan exactly
    when the robot pose can be transformed and some pose of the stored plan
    is nearer to the robot than the threshold. *)
Theorem plan_returned_iff_pose_near pl pose :
  prune_plan_ pl = true ->
  (exists tp, snd (transformGlobalPlan env pl pose) = TransformedPlan tp)
  <-> exists robot_pose,
        robot_in_plan_frame env pose = Some robot_pose /\
        Exists (fun g => getSquareDistance robot_pose g
                         < sq_transform_start_threshold env pl)
               (global_plan_ pl).
Proof.
  intros Hprune. split.
  - intros (tp & H). apply transformGlobalPlan_returns in H.
    destruct H as (robot_pose & skipped & g & w & rest
                   & Hr & Hp & _ & _ & _ & _ & Hg & _).
    exists robot_pose. split; [exact Hr|]. rewrite Hp.
    apply Exists_app. right. left. now apply Qltb_iff.
  - intros (robot_pose & Hr & Hex).
    assert (Hb : transformation_begin env pl robot_pose <> []).
    { apply find_if_found. eapply Exists_impl; [|exact Hex].
      cbn. intros a Ha. now apply Qltb_iff. }
    pose proof (window_nonempty_when_pruning pl robot_pose Hprune Hb) as Hw.
    unfold transformGlobalPlan. rewrite Hr.
    destruct (global_plan_ pl) as [|g0 gs] eqn:Eg.
    { exfalso. apply Hb. unfold transformation_begin. now rewrite Eg. }
    destruct (window env pl robot_pose) as [|g w]; [congruence|].
    cbn. eexists. reflexivity.
Qed.

(** X18. Pruning is done once: after a call that returned a plan, with
    pruning enabled, the same call again prunes nothing more and returns the
    same plan. *)
Theorem prune_again_changes_nothing pl pose tp :
  prune_plan_ pl = true ->
  snd (transformGlobalPlan env pl pose) = TransformedPlan tp ->
  transformGlobalPlan env (fst (transformGlobalPlan env pl pose)) pose
  = (fst (transformGlobalPlan env pl pose), TransformedPlan tp).
Proof.
  intros Hprune H.
  destruct (transformGlobalPlan_returns pl pose tp H)
    as (robot_pose & skipped & g & w & rest
        & Hr & Hp & Hb & Hw & Htp & _ & _ & _).
  assert (E1 : fst (transformGlobalPlan env pl pose)
               = set_global_plan pl (transformation_begin env pl robot_pose)).
  { unfold transformGlobalPlan. rewrite Hr, Hprune, Hw.
    destruct (global_plan_ pl); [|reflexivity].
    exfalso. destruct skipped; discriminate. }
  rewrite E1.
  set (pl1 := set_global_plan pl (transformation_begin env pl robot_pose)).
  assert (Eb : transformation_begin env pl1 robot_pose
               = transformation_begin env pl robot_pose).
  { unfold transformation_begin at 1. cbn.
    apply find_if_again. }
  assert (Ew : window env pl1 robot_pose = window env pl robot_pose).
  { unfold window, transformation_end. rewrite Eb. reflexivity. }
  unfold transformGlobalPlan.
  change (global_plan_ pl1) with (transformation_begin env pl robot_pose).
  rewrite Hb. cbn [app]. rewrite Hr.
  change (prune_plan_ pl1) with (prune_plan_ pl). rewrite Hprune.
  rewrite Ew, Eb, Hw, Htp. cbn [map]. reflexivity.
Qed.

(** X19. With pruning disabled the stored plan is never touched, whatever
    the call returns or throws. *)
Theorem no_pruning_keeps_plan pl pose :
  prune_plan_ pl = false -> fst (transformGlobalPlan env pl pose) = pl.
Proof.
  intros H. unfold transformGlobalPlan.
  destruct (global_plan_ pl); [reflexivity|].
  destruct (robot_in_plan_frame env pose); [|reflexivity].
  rewrite H. now destruct (map _ _).
Qed.

(** X20. A plan can be lost: with pruning enabled, when the robot pose can
    be transformed but no pose of the plan is nearer than the threshold, the
    call erases the whole stored plan and throws; after it every call
    throws "Received plan with zero length" and [isGoalReached] answers
    [false], whatever the pose, until a plan is set again. *)
Theorem far_robot_loses_plan pl pose robot_pose :
  prune_plan_ pl = true ->
  robot_in_plan_frame env pose = Some robot_pose ->
  global_plan_ pl <> [] ->
  Forall (fun g => ~ getSquareDistance robot_pose g
                     < sq_transform_start_threshold env pl) (global_plan_ pl) ->
  transformGlobalPlan env pl pose
  = (set_global_plan pl [],
     PlannerException "Resulting plan has 0 poses in it.")
  /\ (forall later,
        transformGlobalPlan env (set_global_plan pl []) later
        = (set_global_plan pl [],
           PlannerException "Received plan with zero length"))
  /\ (forall robot_to_local goal_checker_ later velocity,
        isGoalReached env robot_to_local goal_checker_
          (set_global_plan pl []) later velocity = false).
Proof.
  intros Hprune Hr Hne Hfar.
  assert (Hb : transformation_begin env pl robot_pose = []).
  { destruct (transformation_begin env pl robot_pose) eqn:E; [reflexivity|].
    assert (Hf : transformation_begin env pl robot_pose <> []) by congruence.
    apply find_if_found in Hf. apply Exists_exists in Hf.
    destruct Hf as (g & Hin & Hg). apply Qltb_iff in Hg.
    rewrite Forall_forall in Hfar. exfalso. exact (Hfar g Hin Hg). }
  repeat split.
  unfold transformGlobalPlan. rewrite Hr, Hprune.
  destruct (global_plan_ pl) eqn:Eg; [congruence|].
  unfold window, transformation_end. rewrite Hb. reflexivity.
Qed.

(** The goal of a plan that a call has pruned is the goal of the plan
    before. *)
Lemma goal_survives_pruning pl pose tp :
  snd (transformGlobalPlan env pl pose) = TransformedPlan tp ->
  exists g gs g' gs',
    global_plan_ pl = g :: gs /\
    global_plan_ (fst (transformGlobalPlan env pl pose)) = g' :: gs' /\
    last (g' :: gs') g' = last (g :: gs) g.
Proof.
  intros H.
  destruct (transformGlobalPlan_returns pl pose tp H)
    as (robot_pose & skipped & g & w & rest
        & Hr & Hp & Hb & _ & _ & _ & _ & _).
  rewrite transformGlobalPlan_plan, Hr.
  destruct (global_plan_ pl) as [|g0 gs0] eqn:Eg;
    [destruct skipped; discriminate|].
  destruct (prune_plan_ pl).
  - rewrite Hb. cbn [app]. exists g0, gs0, g, (w ++ rest).
    repeat split. rewrite Hp. symmetry. apply last_suffix. discriminate.
  - exists g0, gs0, g0, gs0. now repeat split.
Qed.

(** X21. Pruning never moves the goal: after a call of
    [transformGlobalPlan] that returned a plan, [isGoalReached] answers what
    it answered before the call. *)
Theorem pruning_keeps_goal pl pose tp robot_to_local goal_checker_ query velocity :
  snd (transformGlobalPlan env pl pose) = TransformedPlan tp ->
  isGoalReached env robot_to_local goal_checker_
    (fst (transformGlobalPlan env pl pose)) query velocity
  = isGoalReached env robot_to_local goal_checker_ pl query velocity.
Proof.
  intros H. destruct (goal_survives_pruning pl pose tp H)
    as (g & gs & g' & gs' & Hp & Hp' & Hl).
  unfold isGoalReached. rewrite Hp, Hp'. cbv beta iota zeta.
  rewrite Hl. reflexivity.
Qed.

(** X22. The goal [prepareGlobalPlan] hands to the critics is the last pose
    of the plan as it was stored before the call, in the frame of the
    costmap, and the plan it hands over is the one [transformGlobalPlan]
    returns. *)
Theorem prepared_goal_is_plan_end pl pose tp goal :
  snd (prepareGlobalPlan env pl pose) = PreparedPlan tp goal ->
  snd (transformGlobalPlan env pl pose) = TransformedPlan tp
  /\ fst (prepareGlobalPlan env pl pose) = fst (transformGlobalPlan env pl pose)
  /\ exists g gs,
       global_plan_ pl = g :: gs /\
       goal = plan_pose_to_local env (last (g :: gs) g).
Proof.
  unfold prepareGlobalPlan.
  destruct (transformGlobalPlan env pl pose) as [pl' r] eqn:E.
  destruct r as [tp'| |]; cbn [fst snd]; try discriminate.
  cbv zeta. intros H. inversion H; subst tp' goal. clear H.
  assert (Hs : snd (transformGlobalPlan env pl pose) = TransformedPlan tp)
    by now rewrite E.
  destruct (goal_survives_pruning pl pose tp Hs)
    as (g & gs & g' & gs' & Hp & Hp' & Hl).
  rewrite E in Hp'. cbn [fst] in Hp'.
  split; [reflexivity|]. split; [reflexivity|].
  exists g, gs. split; [exact Hp|]. rewrite Hp'. cbv beta iota.
  f_equal. exact Hl.
Qed.

End Window.

Lemma window_is_near_witness :
  exists robot_pose skipped g w rest,
    robot_in_plan_frame square_costmap origin = Some robot_pose
    /\ global_plan_ straight_plan = skipped ++ (g :: w) ++ rest
    /\ [mkPose 0 0 0; mkPose (1 # 2) 0 0]
       = map (plan_pose_to_local square_costmap) (g :: w)
    /\ Forall (fun a => ~ getSquareDistance robot_pose a
                          < sq_transform_start_threshold square_costmap
                              straight_plan) skipped
    /\ getSquareDistance robot_pose g
       < sq_transform_start_threshold square_costmap straight_plan
    /\ Forall (fun a => getSquareDistance robot_pose a
                        <= sq_transform_end_threshold square_costmap
                             straight_plan) (g :: w).
Proof.
  apply (window_is_near square_costmap straight_plan origin).
  vm_compute. reflexivity.
Defined.

Lemma no_pruning_keeps_plan_witness :
  fst (transformGlobalPlan square_costmap
         {| global_plan_ := global_plan_ straight_plan;
            prune_plan_ := false;
            prune_distance_ := 1 |} origin)
  = {| global_plan_ := global_plan_ straight_plan;
       prune_plan_ := false;
       prune_distance_ := 1 |}.
Proof.
  apply (no_pruning_keeps_plan square_costmap). reflexivity.
Defined.

Lemma plan_returned_iff_pose_near_witness :
  exists tp,
    snd (transformGlobalPlan square_costmap straight_plan origin)
    = TransformedPlan tp.
Proof.
  apply (plan_returned_iff_pose_near square_costmap straight_plan origin eq_refl).
  exists origin. split; [reflexivity|].
  right. left. vm_compute. reflexivity.
Defined.

Lemma prune_again_changes_nothing_witness :
  transformGlobalPlan square_costmap
    (fst (transformGlobalPlan square_costmap straight_plan origin)) origin
  = (fst (transformGlobalPlan square_costmap straight_plan origin),
     TransformedPlan [mkPose 0 0 0; mkPose (1 # 2) 0 0]).
Proof.
  apply (prune_again_changes_nothing square_costmap straight_plan origin).
  - reflexivity.
  - vm_compute. reflexivity.
Defined.

Lemma far_robot_loses_plan_witness :
  transformGlobalPlan square_costmap straight_plan (mkPose 100 0 0)
  = (set_global_plan straight_plan [],
     PlannerException "Resulting plan has 0 poses in it.").
Proof.
  apply (far_robot_loses_plan square_costmap straight_plan (mkPose 100 0 0)
           (mkPose 100 0 0)).
  - reflexivity.
  - reflexivity.
  - discriminate.
  - repeat constructor; vm_compute; discriminate.
Defined.

Lemma pruning_keeps_goal_witness :
  isGoalReached square_costmap (fun p => p)
    (fun a b _ => Qeqb (p_x a) (p_x b))
    (fst (transformGlobalPlan square_costmap straight_plan origin))
    (mkPose 5 0 0) zero
  = isGoalReached square_costmap (fun p => p)
      (fun a b _ => Qeqb (p_x a) (p_x b)) straight_plan (mkPose 5 0 0) zero.
Proof.
  apply (pruning_keeps_goal square_costmap straight_plan origin
           [mkPose 0 0 0; mkPose (1 # 2) 0 0]).
  vm_compute. reflexivity.
Defined.

Lemma prepared_goal_is_plan_end_witness :
  exists g gs,
    global_plan_ straight_plan = g :: gs /\
    mkPose 5 0 0 = plan_pose_to_local square_costmap (last (g :: gs) g).
Proof.
  apply (prepared_goal_is_plan_end square_costmap straight_plan origin
           [mkPose 0 0 0; mkPose (1 # 2) 0 0] (mkPose 5 0 0)).
  vm_compute. reflexivity.
Defined.

End WindowMore.

(** ** The control cycle *)

Module CycleFacts.
Import DWBLocalPlanner PlannerCycle.

Section Cycle.
Context {S : Type} {traj_generator_ : TrajectoryGenerator}.
Variable env : Collaborators.
Variable pose_frame_id : String.string.
Variable now : Z.

(** How [prepareGlobalPlan] ends follows how [transformGlobalPlan] does. *)
Lemma prepareGlobalPlan_cases pl pose :
  fst (prepareGlobalPlan env pl pose) = fst (transformGlobalPlan env pl pose)
  /\ match snd (prepareGlobalPlan env pl pose) with
     | PreparedPlan tp _ =>
         snd (transformGlobalPlan env pl pose) = TransformedPlan tp
     | PrepareFailed e =>
         snd (transformGlobalPlan env pl pose) = e /\
         forall tp, e <> TransformedPlan tp
     end.
Proof.
  unfold prepareGlobalPlan.
  destruct (transformGlobalPlan env pl pose) as [pl' [tp| |]];
    cbn [fst snd]; split; try reflexivity; split; try reflexivity;
    intros tp; discriminate.
Qed.

(** X23. The command of a cycle is the twist of one of the candidate
    trajectories of that cycle, the one published as local plan; the plan
    the planner keeps is the one [transformGlobalPlan] left, and when an
    evaluation is kept the trajectory is recorded in it. *)
Theorem command_is_a_candidate (p p' : Planner S) pose velocity results
    cmd_vel local_plan r :
  computeVelocityCommands env pose_frame_id now p pose velocity results
  = (p', CmdVel cmd_vel local_plan, r) ->
  In local_plan (candidates pose velocity)
  /\ cmd_vel = commanded local_plan
  /\ plan p' = fst (transformGlobalPlan env (plan p) pose)
  /\ match r with
     | Some e => exists b, nth_error (twists e) (best_index e) = Some b
                           /\ traj b = local_plan
     | None => True
     end.
Proof.
  unfold computeVelocityCommands.
  destruct (prepareGlobalPlan_cases (plan p) pose) as [Hpl _].
  destruct (prepareGlobalPlan env (plan p) pose) as [pl' [tp goal|e]];
    [|discriminate].
  cbn [fst] in Hpl. cbv zeta.
  destruct (coreScoringAlgorithm _ pose velocity _) as [b r'|] eqn:E;
    [|discriminate].
  intros H. inversion H; subst. clear H.
  unfold coreScoringAlgorithm in E.
  apply SearchFacts.core_finish_best in E. destruct E as (Eb & Er & Hne).
  match type of Eb with
  | _ = best (core_loop true ?cs ?st _) =>
      destruct (SearchFacts.core_loop_best_found true cs
                  (candidates pose velocity) [] st
                  (or_introl eq_refl)) as [Hi|[Hin Hr]]
  end.
  { exfalso. apply Hne. exact Hi. }
  rewrite <- Eb in Hin. rewrite <- Er, <- Eb in Hr.
  split; [exact Hin|]. split; [reflexivity|]. split; [reflexivity|].
  destruct r; [|exact I]. exists b. now split.
Qed.

(** X24. Recording changes no command: whether an evaluation is kept, and
    whatever it held, a cycle ends the same way and leaves the same plan and
    the same critics. *)
Theorem recording_changes_no_command (p : Planner S) pose velocity
    results results' :
  fst (computeVelocityCommands env pose_frame_id now p pose velocity results)
  = fst (computeVelocityCommands env pose_frame_id now p pose velocity
           results')
  /\ fst (computeVelocityCommands_published env pose_frame_id now p pose
            velocity true)
     = fst (computeVelocityCommands_published env pose_frame_id now p pose
              velocity false).
Proof.
  assert (H : forall r r',
             fst (computeVelocityCommands env pose_frame_id now p pose
                    velocity r)
             = fst (computeVelocityCommands env pose_frame_id now p pose
                      velocity r')).
  { intros r r'. unfold computeVelocityCommands.
    destruct (prepareGlobalPlan env (plan p) pose) as [pl' [tp goal|e]];
      [|reflexivity].
    cbv zeta. unfold coreScoringAlgorithm, core_finish.
    match goal with
    | |- context [core_loop true ?cs
                    (core_init (stamp_results r pose_frame_id now)) ?trajs] =>
        destruct (SearchFacts.core_loop_blind true cs trajs
                    (core_init (stamp_results r pose_frame_id now))
                    (core_init (stamp_results r' pose_frame_id now))
                    eq_refl eq_refl eq_refl) as [Hb Ht]
    end.
    rewrite Hb, Ht. now destruct (Qltb _ 0). }
  split; [apply H|]. unfold computeVelocityCommands_published. apply H.
Qed.

(** X25. A cycle whose plan fails touches no critic: when
    [transformGlobalPlan] throws, the call ends with that exception and no
    critic is prepared or debriefed.  Of an evaluation passed in, the header
    has been written by then, with the frame of the pose and the time of
    the call; its twists and indices are as they were.  Only the plan may
    have been pruned. *)
Theorem failed_plan_touches_no_critic (p p' : Planner S) pose velocity
    results e r :
  computeVelocityCommands env pose_frame_id now p pose velocity results
  = (p', PlanFailure e, r) ->
  critics_ p' = critics_ p
  /\ match results, r with
     | Some before, Some after =>
         stamp (header after) = now /\
         frame_id (header after) = pose_frame_id /\
         twists after = twists before /\
         best_index after = best_index before /\
         worst_index after = worst_index before
     | None, None => True
     | _, _ => False
     end
  /\ transformGlobalPlan env (plan p) pose = (plan p', e)
  /\ forall tp, e <> TransformedPlan tp.
Proof.
  unfold computeVelocityCommands.
  destruct (prepareGlobalPlan_cases (plan p) pose) as [Hpl He].
  destruct (prepareGlobalPlan env (plan p) pose) as [pl' [tp goal|e']].
  - cbv zeta. destruct (coreScoringAlgorithm _ _ _ _); discriminate.
  - cbv zeta. intros H. inversion H; subst. clear H.
    cbn [fst snd plan critics_] in *.
    destruct He as [He Hne].
    split; [reflexivity|]. split; [|split; [|exact Hne]].
    + destruct results; cbn; [now repeat split | exact I].
    + rewrite Hpl, <- He.
      now destruct (transformGlobalPlan env (plan p) pose).
Qed.

(** X26. A cycle that got as far as scoring does not move the goal:
    whether it ends with a command or with no legal trajectory,
    [isGoalReached] answers after it what it answered before. *)
Theorem cycle_keeps_goal (p : Planner S) pose velocity results
    robot_to_local goal_checker_ query query_velocity :
  (forall e, snd (fst (computeVelocityCommands env pose_frame_id now p pose
                         velocity results))
             <> PlanFailure e) ->
  isGoalReached env robot_to_local goal_checker_
    (plan (fst (fst (computeVelocityCommands env pose_frame_id now p pose
                       velocity results))))
    query query_velocity
  = isGoalReached env robot_to_local goal_checker_ (plan p)
      query query_velocity.
Proof.
  unfold computeVelocityCommands.
  destruct (prepareGlobalPlan_cases (plan p) pose) as [Hpl He].
  destruct (prepareGlobalPlan env (plan p) pose) as [pl' [tp goal|e]].
  - intros _. cbn [fst snd] in Hpl, He.
    destruct (WindowMore.goal_survives_pruning env (plan p) pose tp He)
      as (g & gs & g' & gs' & Hp & Hp' & Hl).
    rewrite <- Hpl in Hp'.
    assert (E : isGoalReached env robot_to_local goal_checker_ pl'
                  query query_velocity
                = isGoalReached env robot_to_local goal_checker_ (plan p)
                    query query_velocity).
    { unfold isGoalReached. rewrite Hp, Hp'. cbv beta iota zeta.
      do 2 f_equal. exact Hl. }
    cbv zeta. now destruct (coreScoringAlgorithm _ _ _ _).
  - intros H. exfalso. exact (H e eq_refl).
Qed.

End Cycle.

Lemma command_is_a_candidate_witness :
  exists p' cmd_vel local_plan r,
    @computeVelocityCommands unit two_twists square_costmap "odom"%string 7%Z
      two_critic_planner origin zero (Some empty_evaluation)
    = (p', CmdVel cmd_vel local_plan, r)
    /\ In local_plan (@candidates two_twists origin zero).
Proof.
  do 4 eexists. split; [vm_compute; reflexivity|].
  eapply proj1.
  eapply (@command_is_a_candidate unit two_twists square_costmap
            "odom"%string 7%Z two_critic_planner _ origin zero
            (Some empty_evaluation)).
  vm_compute. reflexivity.
Defined.

Lemma failed_plan_touches_no_critic_witness :
  exists p' e after,
    @computeVelocityCommands unit two_twists square_costmap "odom"%string 7%Z
      two_critic_planner (mkPose 100 0 0) zero (Some empty_evaluation)
    = (p', PlanFailure e, Some after)
    /\ critics_ p' = critics_ two_critic_planner
    /\ header after = {| stamp := 7; frame_id := "odom" |}.
Proof.
  do 3 eexists. split; [vm_compute; reflexivity|]. split.
  - eapply proj1.
    eapply (@failed_plan_touches_no_critic unit two_twists square_costmap
              "odom"%string 7%Z two_critic_planner _ (mkPose 100 0 0) zero
              (Some empty_evaluation)).
    vm_compute. reflexivity.
  - reflexivity.
Defined.

Lemma cycle_keeps_goal_witness :
  isGoalReached square_costmap (fun p => p)
    (fun a b _ => Qeqb (p_x a) (p_x b))
    (plan (fst (fst (@computeVelocityCommands unit two_twists square_costmap
                       "odom"%string 7%Z two_critic_planner origin zero
                       None))))
    (mkPose 5 0 0) zero
  = isGoalReached square_costmap (fun p => p)
      (fun a b _ => Qeqb (p_x a) (p_x b)) (plan two_critic_planner)
      (mkPose 5 0 0) zero.
Proof.
  apply (@cycle_keeps_goal unit two_twists square_costmap "odom"%string 7%Z
           two_critic_planner origin zero None).
  intros e. vm_compute. discriminate.
Defined.

End CycleFacts.
